(** * CTMP proxy: framing, checksum and fan-out

    A shallow embedding of the CTMP relay (rad-cmd/ctmp-proxy).  The
    repository holds four variants of the same program:

    - [Stage1]   : main_stage1.cpp   (get_ctmp_message / handle_source)
    - [Early]    : the first Stage 2 listing (calculateChecksum /
                   readCtmpMessage / sourceHandler)
    - [MainCpp]  : main.cpp (compute_checksum / read_ctmp / source_loop)
    - [SumCheck] : the listing whose verifier is validateChecksum
                   (readCtmpMessage / sourceHandler)

    Bytes are [Byte.byte]; C++ unsigned integers are [Z] with the
    wrap-around written out; a socket is the list of bytes that will
    still arrive on it together with the log of the [recv] requests
    made so far; the consumers' side of the network is an event log.
    A broadcast pass holds the registry mutex from its first write to
    its last, so the consumer threads change the registry only between
    two passes. *)

From Stdlib Require Import ZArith List Lia Bool.
From Stdlib Require Import Strings.Byte.
From stdpp Require Import base list.
Import ListNotations.
Open Scope Z_scope.

(** ** Machine integers *)

Definition u8 (b : byte) : Z := Z.of_N (Byte.to_N b).

Definition wrap16 (z : Z) : Z := z mod 2 ^ 16.
Definition wrap32 (z : Z) : Z := z mod 2 ^ 32.

(** [uint8_t(z)]: the low eight bits of [z] as a byte. *)
Definition to_u8 (z : Z) : byte :=
  match Byte.of_N (Z.to_N (z mod 256)) with
  | Some b => b
  | None => x00
  end.

(** [~x] on a [uint32_t]. *)
Definition not32 (x : Z) : Z := wrap32 (Z.lnot x).

(** ** Protocol constants (identical in every listing) *)

Definition HEADER_LEN : Z := 8.
Definition MAX_BODY : Z := 65535.
Definition MAGIC : Z := 0xCC.

(** ** Checksum engine

    The summation loop is textually the same in calculateChecksum,
    compute_checksum and validateChecksum:
<<
      for (size_t i = 0; i + 1 < n; i += 2) {
        sum += (uint16_t(b[i]) << 8) | b[i + 1];
        if (sum > 0xFFFF) sum = (sum & 0xFFFF) + 1;
      }
      if (n & 1) {
        sum += uint16_t(b[n - 1]) << 8;
        if (sum > 0xFFFF) sum = (sum & 0xFFFF) + 1;
      }
>>
*)

(** [(uint16_t(hi) << 8) | lo] *)
Definition be_word (hi lo : byte) : Z := Z.lor (Z.shiftl (u8 hi) 8) (u8 lo).

(** [uint16_t(hi) << 8] *)
Definition be_tail (hi : byte) : Z := Z.shiftl (u8 hi) 8.

(** [sum += w; if (sum > 0xFFFF) sum = (sum & 0xFFFF) + 1;] on [uint32_t] *)
Definition add_fold (sum w : Z) : Z :=
  let sum1 := wrap32 (sum + w) in
  if 0xFFFF <? sum1 then wrap32 (Z.land sum1 0xFFFF + 1) else sum1.

Fixpoint sum_loop (sum : Z) (b : list byte) : Z :=
  match b with
  | hi :: lo :: rest => sum_loop (add_fold sum (be_word hi lo)) rest
  | [hi] => add_fold sum (be_tail hi)
  | [] => sum
  end.

(** [return uint16_t(~sum) & 0xFFFF;] *)
Definition complement16 (sum : Z) : Z := Z.land (wrap16 (not32 sum)) 0xFFFF.

(** ** The reference algorithm, in the words of the specification

    "treat the byte sequence as a sequence of 16-bit big-endian words
    (pad a trailing odd byte with a low zero byte); accumulate a 32-bit
    running sum of all words; whenever the sum exceeds 0xFFFF, fold the
    carry back in (sum = (sum & 0xFFFF) + (sum >> 16)); the result is
    the one's complement (bitwise NOT, masked to 16 bits) of the final
    folded sum." *)
Module Reference.

Fixpoint words (b : list byte) : list Z :=
  match b with
  | hi :: lo :: rest => (256 * u8 hi + u8 lo) :: words rest
  | [hi] => [256 * u8 hi + u8 x00]
  | [] => []
  end.

Definition fold_carry (sum : Z) : Z :=
  if 0xFFFF <? sum then Z.land sum 0xFFFF + Z.shiftr sum 16 else sum.

Definition accumulate (sum w : Z) : Z := fold_carry ((sum + w) mod 2 ^ 32).

Definition checksum (b : list byte) : Z :=
  Z.land (Z.lnot (fold_left accumulate (words b) 0)) 0xFFFF.

(** The other reading of "whenever": add every word first, fold the
    carries afterwards until none is left. *)
Fixpoint fold_until (fuel : nat) (sum : Z) : Z :=
  match fuel with
  | O => sum
  | S k => if 0xFFFF <? sum
           then fold_until k (Z.land sum 0xFFFF + Z.shiftr sum 16)
           else sum
  end.

Definition checksum_deferred (b : list byte) : Z :=
  Z.land (Z.lnot (fold_until 3 (fold_left Z.add (words b) 0 mod 2 ^ 32))) 0xFFFF.

End Reference.

(** ** Buffers

    [std::vector<uint8_t>] and [uint8_t[8]] are lists of bytes.  Every
    index the listings use is in range (the header array has eight
    cells and [out] was resized first); out of range a read gives 0
    here and a write changes nothing. *)

Definition byte_at (p : list byte) (i : nat) : Z := u8 (nth i p x00).

(** [ntohs] of the [uint16_t] stored at [p + off]: the two bytes at
    [off] read in network (big-endian) order. *)
Definition ntohs_at (p : list byte) (off : nat) : Z :=
  be_word (nth off p x00) (nth (S off) p x00).

(** [v.resize(n)]: keeps the first [n] cells, zero-fills the new ones. *)
Definition resize (n : nat) (v : list byte) : list byte :=
  take n v ++ replicate (n - length v) x00.

(** [memcpy(dst + off, src, |src|)], for [off + |src| <= |dst|]. *)
Definition memcpy_at (dst : list byte) (off : nat) (src : list byte) : list byte :=
  take off dst ++ src ++ drop (off + length src) dst.

(** [memcmp(a, b, n)]: the difference at the first cell that differs. *)
Fixpoint memcmp (a b : list byte) (n : nat) {struct n} : Z :=
  match n, a, b with
  | S k, x :: a', y :: b' => if u8 x =? u8 y then memcmp a' b' k else u8 x - u8 y
  | _, _, _ => 0
  end.

(** The sender's side of the checksum field (wire format, offsets 4-5,
    big-endian): store a 16-bit value. *)
Definition store_be16 (p : list byte) (off : nat) (v : Z) : list byte :=
  <[S off := to_u8 (Z.land v 0xFF)]> (<[off := to_u8 (Z.shiftr v 8)]> p).

(** ** The producer socket

    [rx] holds the bytes that will still arrive before the stream ends;
    [reqs] logs the byte counts requested so far.  With MSG_WAITALL a
    [recv] of [n] bytes returns [n] when that many arrive and a short
    count when the stream ends first. *)

Record socket : Type := Sock { rx : list byte; reqs : list Z }.

Definition recv_waitall (s : socket) (n : Z) : Z * list byte * socket :=
  let got := take (Z.to_nat n) (rx s) in
  (Z.of_nat (length got), got,
   Sock (drop (Z.to_nat n) (rx s)) (reqs s ++ [n])).

(** ** The consumers' side

    A consumer is its file descriptor.  What the relay thread does to
    consumers is logged; [send] is an oracle for the value the system
    call returns, which may depend on everything logged before.
    [EvFrame] marks the buffer a broadcast pass starts with. *)

Inductive event : Type :=
| EvFrame (data : list byte)
| EvSend (d : Z) (data : list byte) (ret : Z)
| EvClose (d : Z).

Definition send_oracle : Type := list event -> Z -> list byte -> Z.

(** The loop under the lock, the same in the four listings:
<<
      for (auto it = sinks.begin(); it != sinks.end();) {
        int d = *it;
        ssize_t n = send(d, msg.data(), msg.size(), MSG_NOSIGNAL);
        if (n != static_cast<ssize_t>(msg.size())) {
          close(d);
          it = sinks.erase(it);
        } else ++it;
      }
>>
    [it] is the iterator's index; one unit of fuel per iteration. *)
Fixpoint broadcast_from (send : send_oracle) (fuel : nat) (it : nat)
    (msg : list byte) (sinks : list Z) (tr : list event)
    : option (list Z * list event) :=
  match sinks !! it with
  | None => Some (sinks, tr)
  | Some d =>
    match fuel with
    | O => None
    | S fuel' =>
      let n := send tr d msg in
      let tr1 := tr ++ [EvSend d msg n] in
      if negb (n =? Z.of_nat (length msg))
      then broadcast_from send fuel' it msg (delete it sinks) (tr1 ++ [EvClose d])
      else broadcast_from send fuel' (S it) msg sinks tr1
    end
  end.

Definition broadcast (send : send_oracle) (msg : list byte)
    (sinks : list Z) (tr : list event) : option (list Z * list event) :=
  broadcast_from send (length sinks) 0 msg sinks (tr ++ [EvFrame msg]).

(** The same pass told consumer by consumer: each one's turn logs its
    send, and its close when the send fell short. *)
Fixpoint pass (send : send_oracle) (msg : list byte) (sinks : list Z)
    (tr : list event) : list Z * list event :=
  match sinks with
  | [] => ([], tr)
  | d :: rest =>
    let n := send tr d msg in
    if n =? Z.of_nat (length msg)
    then let '(kept, tr') := pass send msg rest (tr ++ [EvSend d msg n]) in
         (d :: kept, tr')
    else pass send msg rest ((tr ++ [EvSend d msg n]) ++ [EvClose d])
  end.

(** Reading a log: the write attempts (consumer, returned count), the
    buffers offered, the consumers closed. *)
Definition attempts (evs : list event) : list (Z * Z) :=
  flat_map (fun ev => match ev with EvSend d _ n => [(d, n)] | _ => [] end) evs.

Definition offered (evs : list event) : list (list byte) :=
  flat_map (fun ev => match ev with EvSend _ data _ => [data] | _ => [] end) evs.

Definition closes (evs : list event) : list Z :=
  flat_map (fun ev => match ev with EvClose d => [d] | _ => [] end) evs.

(** What the relay offered to consumer [d], what [d] saw arrive on its
    socket (a short write delivers a prefix, a failed one nothing),
    and the frames the passes started with. *)
Definition sent_to (d : Z) (evs : list event) : list (list byte) :=
  flat_map (fun ev => match ev with
                      | EvSend d' data _ => if d' =? d then [data] else []
                      | _ => []
                      end) evs.

Definition observed (d : Z) (evs : list event) : list byte :=
  flat_map (fun ev => match ev with
                      | EvSend d' data n =>
                          if d' =? d then take (Z.to_nat n) data else []
                      | _ => []
                      end) evs.

Definition frames_of (evs : list event) : list (list byte) :=
  flat_map (fun ev => match ev with EvFrame data => [data] | _ => [] end) evs.

Definition complete (msg : list byte) (a : Z * Z) : bool :=
  snd a =? Z.of_nat (length msg).

(** The consumer threads (sink_loop, destHandler, handle_dest) touch the
    registry under the same lock: [push_back] on connect, erase-remove
    on disconnect. *)
Definition register (d : Z) (sinks : list Z) : list Z := sinks ++ [d].

Definition unregister (d : Z) (sinks : list Z) : list Z :=
  List.filter (fun x => negb (x =? d)) sinks.

(** ** The relay loop

<<
      std::vector<uint8_t> msg;
      while (running.load()) {
        if (!read_ctmp(fd, msg)) break;
        std::lock_guard<std::mutex> lk(sinks_mu);
        ... the loop above ...
      }
      close(fd);
>>
    [running k] is what the k-th test of the flag reads; [churn k] is
    what the consumer threads did to the registry while the lock was
    free before the k-th pass. *)

Record relay : Type := Relay {
  src : socket;
  src_open : bool;
  msg_buf : list byte;
  sinks : list Z;
  trace : list event
}.

Definition reader : Type := socket -> list byte -> bool * list byte * socket.

Record env : Type := Env {
  send : send_oracle;
  running : nat -> bool;
  churn : nat -> list Z -> list Z
}.

Fixpoint relay_loop (read : reader) (e : env) (fuel : nat) (k : nat)
    (st : relay) : option relay :=
  match fuel with
  | O => None
  | S fuel' =>
    if negb (running e k)
    then Some (Relay (src st) false (msg_buf st) (sinks st) (trace st))
    else
      let '(ok, msg, s) := read (src st) (msg_buf st) in
      if negb ok
      then Some (Relay s false msg (sinks st) (trace st))
      else
        match broadcast (send e) msg (churn e k (sinks st)) (trace st) with
        | None => None
        | Some (sinks', tr') =>
          relay_loop read e fuel' (S k) (Relay s true msg sinks' tr')
        end
  end.

(** The thread's entry: a fresh buffer, an open connection; every
    iteration that goes on consumes a header, so the bytes still to
    arrive bound the number of iterations. *)
Definition start (s : socket) (reg : list Z) (tr : list event) : relay :=
  Relay s true [] reg tr.

Definition run_relay (read : reader) (e : env) (s : socket) (reg : list Z)
    (tr : list event) : option relay :=
  relay_loop read e (S (length (rx s))) 0 (start s reg tr).

(** An environment in which nothing goes wrong: every write is
    complete, the flag stays set, no consumer comes or goes. *)
Definition quiet : env :=
  Env (fun _ _ msg => Z.of_nat (length msg)) (fun _ => true) (fun _ reg => reg).

(** An environment with comings and goings: consumer 7 connects while
    the lock is free before the second pass, consumer 6 disconnects
    before the third; every write is complete. *)
Definition busy : env :=
  Env (fun _ _ msg => Z.of_nat (length msg)) (fun _ => true)
      (fun k reg => match k with
                    | 1%nat => register 7 reg
                    | 2%nat => unregister 6 reg
                    | _ => reg
                    end).

(** ** The consumer threads

<<
      { lock; sinks.push_back(fd); }
      char peek;
      while (running.load() &&
             recv(fd, &peek, 1, MSG_PEEK | MSG_DONTWAIT) != 0)
        std::this_thread::sleep_for(std::chrono::milliseconds(100));
      close(fd);
      lock; sinks.erase(std::remove(sinks.begin(), sinks.end(), fd),
                        sinks.end());
>>
    [peek k] is what the k-th non-blocking peek returns (0: the peer
    has closed; -1: nothing to read, or an error; 1: a byte waits),
    [alive k] what the k-th test of the flag reads, [meanwhile] what
    the other threads did to the registry between this thread's two
    critical sections.  The listings differ in the loop test only;
    [poll] counts the sleeps, one unit of fuel per test. *)

Record dest_env : Type := DestEnv {
  peek : nat -> Z;
  alive : nat -> bool;
  meanwhile : list Z -> list Z
}.

Fixpoint poll (again : nat -> bool) (fuel k : nat) : option nat :=
  match fuel with
  | O => None
  | S fuel' => if again k then poll again fuel' (S k) else Some k
  end.

Definition dest_thread (again : nat -> bool) (e : dest_env) (fuel : nat)
    (fd : Z) (reg : list Z) : option (list Z * nat) :=
  let reg1 := register fd reg in
  match poll again fuel 0 with
  | None => None
  | Some sleeps => Some (unregister fd (meanwhile e reg1), sleeps)
  end.

(** ** Shutdown

    The flag and the two listening descriptors are globals; [closed]
    logs the [close] calls made on listeners. *)
Record process : Type := Process {
  flag : bool;
  src_listener : Z;
  dst_listener : Z;
  closed : list Z
}.

(** ** main_stage1.cpp *)
Module Stage1.

Definition get_ctmp_message (sock : socket) (msg : list byte)
    : bool * list byte * socket :=
  let '(n, header, s1) := recv_waitall sock HEADER_LEN in
  if negb (n =? HEADER_LEN) then (false, msg, s1) else
  if negb (byte_at header 0 =? MAGIC) || negb (byte_at header 1 =? 0x00)
  then (false, msg, s1) else
  if negb (memcmp (drop 4 header) [x00; x00; x00; x00] 4 =? 0)
  then (false, msg, s1) else
  let length := ntohs_at header 2 in
  if MAX_BODY <? length then (false, msg, s1) else
  let msg1 := memcpy_at (resize (Z.to_nat (HEADER_LEN + length)) msg) 0 header in
  let '(n', body, s2) := recv_waitall s1 length in
  (n' =? length, memcpy_at msg1 8 body, s2).

Definition handle_source : env -> nat -> nat -> relay -> option relay :=
  relay_loop get_ctmp_message.

(** [while (recv(...) != 0 && run_flag.load())] *)
Definition handle_dest (e : dest_env)
    : nat -> Z -> list Z -> option (list Z * nat) :=
  dest_thread (fun k => negb (peek e k =? 0) && alive e k) e.

End Stage1.

(** ** The first Stage 2 listing *)
Module Early.

Definition calculateChecksum (data : list byte) : Z :=
  complement16 (sum_loop 0 data).

(** The test under [if (options & 0x40)]: true when the packet is dropped. *)
Definition checksum_mismatch (out : list byte) (checksum : Z) : bool :=
  let temp := <[4%nat := xcc]> (<[5%nat := xcc]> out) in
  negb (calculateChecksum temp =? checksum).

Definition readCtmpMessage (sock : socket) (out : list byte)
    : bool * list byte * socket :=
  let '(n, header_buf, s1) := recv_waitall sock HEADER_LEN in
  if negb (n =? HEADER_LEN) then (false, out, s1) else
  if negb (byte_at header_buf 0 =? MAGIC) then (false, out, s1) else
  let options := byte_at header_buf 1 in
  let payloadLen := ntohs_at header_buf 2 in
  let checksum := ntohs_at header_buf 4 in
  if MAX_BODY <? payloadLen then (false, out, s1) else
  if negb (byte_at header_buf 6 =? 0) || negb (byte_at header_buf 7 =? 0)
  then (false, out, s1) else
  let out1 :=
    memcpy_at (resize (Z.to_nat (HEADER_LEN + payloadLen)) out) 0 header_buf in
  let '(n', body, s2) := recv_waitall s1 payloadLen in
  let out2 := memcpy_at out1 8 body in
  if negb (n' =? payloadLen) then (false, out2, s2) else
  if negb (Z.land options 0x40 =? 0)
  then (if checksum_mismatch out2 checksum then (false, out2, s2) else (true, out2, s2))
  else (true, out2, s2).

Definition sourceHandler : env -> nat -> nat -> relay -> option relay :=
  relay_loop readCtmpMessage.

(** [while (running.load() && recv(...) != 0)] *)
Definition destHandler (e : dest_env)
    : nat -> Z -> list Z -> option (list Z * nat) :=
  dest_thread (fun k => alive e k && negb (peek e k =? 0)) e.

End Early.

(** ** main.cpp *)
Module MainCpp.

Definition compute_checksum (b : list byte) : Z :=
  complement16 (sum_loop 0 b).

(** The test under [if (options & 0x40)]: true when the packet is dropped. *)
Definition checksum_mismatch (out : list byte) (net_ck : Z) : bool :=
  let tmp := <[5%nat := xcc]> (<[4%nat := xcc]> out) in
  let calc := compute_checksum tmp in
  negb (calc =? net_ck).

Definition read_ctmp (sock : socket) (out : list byte)
    : bool * list byte * socket :=
  let '(n, hdr, s1) := recv_waitall sock HEADER_LEN in
  if negb (n =? HEADER_LEN) then (false, out, s1) else
  if negb (byte_at hdr 0 =? MAGIC) then (false, out, s1) else
  let options := byte_at hdr 1 in
  let len := ntohs_at hdr 2 in
  let net_ck := ntohs_at hdr 4 in
  if MAX_BODY <? len then (false, out, s1) else
  if negb (byte_at hdr 6 =? 0) || negb (byte_at hdr 7 =? 0)
  then (false, out, s1) else
  let out1 := memcpy_at (resize (Z.to_nat (HEADER_LEN + len)) out) 0 hdr in
  let '(n', body, s2) := recv_waitall s1 len in
  let out2 := memcpy_at out1 8 body in
  if negb (n' =? len) then (false, out2, s2) else
  if negb (Z.land options 0x40 =? 0)
  then (if checksum_mismatch out2 net_ck then (false, out2, s2) else (true, out2, s2))
  else (true, out2, s2).

Definition source_loop : env -> nat -> nat -> relay -> option relay :=
  relay_loop read_ctmp.

(** [while (running.load() && recv(...) != 0)] *)
Definition sink_loop (e : dest_env)
    : nat -> Z -> list Z -> option (list Z * nat) :=
  dest_thread (fun k => alive e k && negb (peek e k =? 0)) e.

(** [running.store(false)], then each listener that is still open (its
    descriptor not negative) is closed and set to -1. *)
Definition handle_signal (p : process) : process :=
  let p1 := Process false (src_listener p) (dst_listener p) (closed p) in
  let p2 := if 0 <=? src_listener p1
            then Process (flag p1) (-1) (dst_listener p1)
                         (closed p1 ++ [src_listener p1])
            else p1 in
  if 0 <=? dst_listener p2
  then Process (flag p2) (src_listener p2) (-1) (closed p2 ++ [dst_listener p2])
  else p2.

(** The end of [main]: each listener that is still open is closed. *)
Definition main_cleanup (p : process) : process :=
  let p1 := if 0 <=? src_listener p
            then Process (flag p) (src_listener p) (dst_listener p)
                         (closed p ++ [src_listener p])
            else p in
  if 0 <=? dst_listener p1
  then Process (flag p1) (src_listener p1) (dst_listener p1)
               (closed p1 ++ [dst_listener p1])
  else p1.

End MainCpp.

(** ** The listing that verifies with validateChecksum *)
Module SumCheck.

Definition validateChecksum (buf : list byte) : bool :=
  sum_loop 0 buf =? 0xFFFF.

Definition readCtmpMessage (sock : socket) (out : list byte)
    : bool * list byte * socket :=
  let '(n, hdr, s1) := recv_waitall sock HEADER_LEN in
  if negb (n =? HEADER_LEN) then (false, out, s1) else
  if negb (byte_at hdr 0 =? MAGIC) then (false, out, s1) else
  let options := byte_at hdr 1 in
  let length := ntohs_at hdr 2 in
  if MAX_BODY <? length then (false, out, s1) else
  if negb (byte_at hdr 6 =? 0) || negb (byte_at hdr 7 =? 0)
  then (false, out, s1) else
  let out1 := memcpy_at (resize (Z.to_nat (HEADER_LEN + length)) out) 0 hdr in
  let '(n', body, s2) := recv_waitall s1 length in
  let out2 := memcpy_at out1 8 body in
  if negb (n' =? length) then (false, out2, s2) else
  let isSensitive := negb (Z.land options 0x40 =? 0) in
  if isSensitive
  then (if negb (validateChecksum out2) then (false, out2, s2) else (true, out2, s2))
  else (true, out2, s2).

Definition sourceHandler : env -> nat -> nat -> relay -> option relay :=
  relay_loop readCtmpMessage.

(** [while (running.load() && recv(...) > 0)] *)
Definition destHandler (e : dest_env)
    : nat -> Z -> list Z -> option (list Z * nat) :=
  dest_thread (fun k => alive e k && (0 <? peek e k)) e.

End SumCheck.

(** ** The shape the three Stage 2 readers share

    Up to the names of their variables the three readers are one text,
    with the test made on a sensitive packet as the only difference. *)
Definition read_stage2 (mismatch : list byte -> Z -> bool) : reader :=
  fun sock out =>
  let '(n, hdr, s1) := recv_waitall sock HEADER_LEN in
  if negb (n =? HEADER_LEN) then (false, out, s1) else
  if negb (byte_at hdr 0 =? MAGIC) then (false, out, s1) else
  let options := byte_at hdr 1 in
  let len := ntohs_at hdr 2 in
  let net_ck := ntohs_at hdr 4 in
  if MAX_BODY <? len then (false, out, s1) else
  if negb (byte_at hdr 6 =? 0) || negb (byte_at hdr 7 =? 0)
  then (false, out, s1) else
  let out1 := memcpy_at (resize (Z.to_nat (HEADER_LEN + len)) out) 0 hdr in
  let '(n', body, s2) := recv_waitall s1 len in
  let out2 := memcpy_at out1 8 body in
  if negb (n' =? len) then (false, out2, s2) else
  if negb (Z.land options 0x40 =? 0)
  then (if mismatch out2 net_ck then (false, out2, s2) else (true, out2, s2))
  else (true, out2, s2).

(** ** The two verification rules, as predicates on a received buffer

    (a) force the checksum field to 0xCC 0xCC, recompute, compare with
        the field as received (main.cpp and the first listing);
    (b) sum the buffer as received and accept on 0xFFFF. *)
Definition verify_sentinel (buf : list byte) : bool :=
  negb (MainCpp.checksum_mismatch buf (ntohs_at buf 4)).

Definition verify_sentinel_early (buf : list byte) : bool :=
  negb (Early.checksum_mismatch buf (ntohs_at buf 4)).

Definition verify_whole (buf : list byte) : bool :=
  SumCheck.validateChecksum buf.

(** The sender's construction: the checksum of the buffer with the
    field forced to 0xCC 0xCC, stored into the field. *)
Definition force_sentinel (buf : list byte) : list byte :=
  <[5%nat := xcc]> (<[4%nat := xcc]> buf).

Definition seal (buf : list byte) : list byte :=
  store_be16 buf 4 (Early.calculateChecksum (force_sentinel buf)).

(** The plain sum of a buffer's big-endian words, without any fold. *)
Fixpoint word_total (b : list byte) : Z :=
  match b with
  | hi :: lo :: rest => be_word hi lo + word_total rest
  | [hi] => be_tail hi
  | [] => 0
  end.

(** A frame a Stage 2 reader with the sensitive test [mismatch] keeps:
    magic, zero padding, the whole body of the declared length, and a
    passing checksum test when bit 0x40 of the options is set. *)
Definition kept_frame (mismatch : list byte -> Z -> bool) (f : list byte) : Prop :=
  exists o lh ll c4 c5 body,
    f = [xcc; o; lh; ll; c4; c5; x00; x00] ++ body /\
    Z.of_nat (length body) = be_word lh ll /\
    (Z.land (u8 o) 0x40 = 0 \/ mismatch f (be_word c4 c5) = false).

(** The checksum field filled the other way: computed over the buffer
    with the field zeroed. *)
Definition seal_zeroed (buf : list byte) : list byte :=
  store_be16 buf 4
    (MainCpp.compute_checksum (<[5%nat := x00]> (<[4%nat := x00]> buf))).

(** A structurally valid frame, read off the bytes themselves. *)
Definition frame_shaped (buf : list byte) : Prop :=
  Z.of_nat (length buf) = 8 + ntohs_at buf 2 /\
  byte_at buf 0 = 0xCC /\ byte_at buf 6 = 0 /\ byte_at buf 7 = 0.

(** The buffers an event carries to a consumer. *)
Definition event_data (ev : event) : list (list byte) :=
  match ev with
  | EvFrame data => [data]
  | EvSend _ data _ => [data]
  | EvClose _ => []
  end.

(** The counts in a log are the system call's own: every write logged
    in [new], which continues the log [tr0], carries the value [send]
    returned for that consumer and buffer on the log as it stood just
    before the write. *)
Definition answered (snd_ : send_oracle) (tr0 new : list event) : Prop :=
  forall pre d data n post,
    new = pre ++ EvSend d data n :: post -> n = snd_ (tr0 ++ pre) d data.

(** What the log [new] says consumer [d] got of the frames [fs], with
    [reg'] the registry at the end.  Either every frame, whole, and [d]
    is still registered; or the frames before some frame [f], then the
    [n] bytes (none when [n] is negative) that the short write of [f]
    transferred, after which [d] was closed, dropped from the registry
    and written no more. *)
Definition delivered_all (d : Z) (fs : list (list byte)) (new : list event)
    (reg' : list Z) : Prop :=
  sent_to d new = fs /\ observed d new = concat fs /\
  count_occ Z.eq_dec (closes new) d = 0%nat /\
  count_occ Z.eq_dec reg' d = 1%nat.

Definition cut_short (snd_ : send_oracle) (d : Z) (fs : list (list byte))
    (new : list event) (reg' : list Z) : Prop :=
  exists (j : nat) (f : list byte) (n : Z) (tr0 : list event),
    fs !! j = Some f /\
    n = snd_ tr0 d f /\ n <> Z.of_nat (length f) /\
    sent_to d new = take (S j) fs /\
    observed d new = concat (take j fs) ++ take (Z.to_nat n) f /\
    count_occ Z.eq_dec (closes new) d = 1%nat /\
    count_occ Z.eq_dec reg' d = 0%nat.

(** ** The length test with its bound as a parameter

    [if (len > MAX_BODY) return false;] compares a 16-bit value with
    the constant 65535.  The two readers below are read_ctmp and
    get_ctmp_message with that constant as the parameter [limit] and
    nothing else changed; at [MAX_BODY] they are the readers of the
    listings. *)
Definition read_ctmp_limit (limit : Z) (sock : socket) (out : list byte)
    : bool * list byte * socket :=
  let '(n, hdr, s1) := recv_waitall sock HEADER_LEN in
  if negb (n =? HEADER_LEN) then (false, out, s1) else
  if negb (byte_at hdr 0 =? MAGIC) then (false, out, s1) else
  let options := byte_at hdr 1 in
  let len := ntohs_at hdr 2 in
  let net_ck := ntohs_at hdr 4 in
  if limit <? len then (false, out, s1) else
  if negb (byte_at hdr 6 =? 0) || negb (byte_at hdr 7 =? 0)
  then (false, out, s1) else
  let out1 := memcpy_at (resize (Z.to_nat (HEADER_LEN + len)) out) 0 hdr in
  let '(n', body, s2) := recv_waitall s1 len in
  let out2 := memcpy_at out1 8 body in
  if negb (n' =? len) then (false, out2, s2) else
  if negb (Z.land options 0x40 =? 0)
  then (if MainCpp.checksum_mismatch out2 net_ck
        then (false, out2, s2) else (true, out2, s2))
  else (true, out2, s2).

Definition get_ctmp_message_limit (limit : Z) (sock : socket) (msg : list byte)
    : bool * list byte * socket :=
  let '(n, header, s1) := recv_waitall sock HEADER_LEN in
  if negb (n =? HEADER_LEN) then (false, msg, s1) else
  if negb (byte_at header 0 =? MAGIC) || negb (byte_at header 1 =? 0x00)
  then (false, msg, s1) else
  if negb (memcmp (drop 4 header) [x00; x00; x00; x00] 4 =? 0)
  then (false, msg, s1) else
  let length := ntohs_at header 2 in
  if limit <? length then (false, msg, s1) else
  let msg1 := memcpy_at (resize (Z.to_nat (HEADER_LEN + length)) msg) 0 header in
  let '(n', body, s2) := recv_waitall s1 length in
  (n' =? length, memcpy_at msg1 8 body, s2).

(** ** Arithmetic of the machine integers *)

Lemma u8_range (b : byte) : 0 <= u8 b < 256.
Proof.
  unfold u8. pose proof (Byte.to_N_bounded b). lia.
Qed.

Lemma u8_to_u8 (z : Z) : u8 (to_u8 z) = z mod 256.
Proof.
  unfold to_u8, u8.
  assert (Hr : 0 <= z mod 256 < 256) by (apply Z.mod_pos_bound; lia).
  destruct (Byte.of_N (Z.to_N (z mod 256))) as [b|] eqn:E.
  - apply Byte.to_of_N in E. rewrite E. lia.
  - pose proof (Byte.to_of_N_option_map (Z.to_N (z mod 256))) as H.
    rewrite E in H. simpl in H.
    destruct (N.leb_spec (Z.to_N (z mod 256)) 255); [discriminate | lia].
Qed.

Lemma be_word_value (hi lo : byte) : be_word hi lo = 256 * u8 hi + u8 lo.
Proof.
  unfold be_word.
  pose proof (u8_range hi). pose proof (u8_range lo).
  rewrite Z.shiftl_mul_pow2 by lia.
  change (2 ^ 8) with 256.
  rewrite <- Z.add_nocarry_lor.
  - lia.
  - apply Z.bits_inj'. intros n Hn.
    rewrite Z.land_spec, Z.bits_0.
    destruct (Z.ltb_spec n 8).
    + replace (u8 hi * 256) with (u8 hi * 2 ^ 8) by reflexivity.
      rewrite Z.mul_pow2_bits_low by lia. reflexivity.
    + rewrite (Z.bits_above_log2 (u8 lo) n); [apply andb_false_r | lia |].
      destruct (Z.eq_dec (u8 lo) 0) as [->|]; [simpl; lia|].
      apply Z.log2_lt_pow2; [lia|].
      apply Z.lt_le_trans with (2 ^ 8); [simpl; lia|].
      apply Z.pow_le_mono_r; lia.
Qed.

Lemma be_tail_value (hi : byte) : be_tail hi = 256 * u8 hi.
Proof.
  unfold be_tail. rewrite Z.shiftl_mul_pow2 by lia. change (2 ^ 8) with 256. lia.
Qed.

Lemma be_word_range (hi lo : byte) : 0 <= be_word hi lo <= 0xFFFF.
Proof.
  rewrite be_word_value. pose proof (u8_range hi). pose proof (u8_range lo). lia.
Qed.

Lemma be_tail_range (hi : byte) : 0 <= be_tail hi <= 0xFFFF.
Proof.
  rewrite be_tail_value. pose proof (u8_range hi). lia.
Qed.

Lemma land_ffff (z : Z) : Z.land z 0xFFFF = z mod 2 ^ 16.
Proof. change 0xFFFF with (Z.ones 16). apply Z.land_ones. lia. Qed.

(** The one's-complement addition step, as arithmetic: no 32-bit
    wrap-around ever happens, and the fold subtracts 0xFFFF. *)
Lemma add_fold_value (sum w : Z) :
  0 <= sum <= 0xFFFF -> 0 <= w <= 0xFFFF ->
  add_fold sum w = if 0xFFFF <? sum + w then sum + w - 0xFFFF else sum + w.
Proof.
  intros Hs Hw. unfold add_fold, wrap32.
  rewrite (Z.mod_small (sum + w)) by lia.
  destruct (Z.ltb_spec 0xFFFF (sum + w)); [|reflexivity].
  rewrite land_ffff.
  replace ((sum + w) mod 2 ^ 16) with (sum + w - 2 ^ 16).
  - rewrite Z.mod_small; lia.
  - apply Z.mod_unique with 1; lia.
Qed.

Lemma add_fold_range (sum w : Z) :
  0 <= sum <= 0xFFFF -> 0 <= w <= 0xFFFF -> 0 <= add_fold sum w <= 0xFFFF.
Proof.
  intros Hs Hw. rewrite add_fold_value by assumption.
  destruct (Z.ltb_spec 0xFFFF (sum + w)); lia.
Qed.

(** Induction two bytes at a time, the way the loop walks the buffer. *)
Lemma pair_ind {A : Type} (P : list A -> Prop) :
  P [] -> (forall x, P [x]) -> (forall x y l, P l -> P (x :: y :: l)) ->
  forall l, P l.
Proof.
  intros H0 H1 H2.
  assert (H : forall l, P l /\ forall x, P (x :: l)).
  { induction l as [|a l [IH1 IH2]]; split; auto. }
  intro l. apply H.
Qed.

Lemma sum_loop_range (b : list byte) :
  forall sum, 0 <= sum <= 0xFFFF -> 0 <= sum_loop sum b <= 0xFFFF.
Proof.
  induction b as [|hi|hi lo rest IH] using pair_ind; intros sum Hs; simpl.
  - assumption.
  - apply add_fold_range; [assumption | apply be_tail_range].
  - apply IH. apply add_fold_range; [assumption | apply be_word_range].
Qed.

Lemma complement16_value (sum : Z) :
  0 <= sum <= 0xFFFF -> complement16 sum = 0xFFFF - sum.
Proof.
  intro Hs. unfold complement16, wrap16, not32, wrap32.
  rewrite land_ffff, Z.mod_mod by lia.
  unfold Z.lnot.
  replace (Z.pred (- sum)) with (2 ^ 32 - 1 - sum + (-1) * 2 ^ 32) by lia.
  rewrite Z.mod_add by lia.
  rewrite (Z.mod_small (2 ^ 32 - 1 - sum)) by lia.
  replace (2 ^ 32 - 1 - sum) with (0xFFFF - sum + 65535 * 2 ^ 16) by lia.
  rewrite Z.mod_add by lia.
  apply Z.mod_small. lia.
Qed.

Lemma complement16_range (sum : Z) :
  0 <= sum <= 0xFFFF -> 0 <= complement16 sum <= 0xFFFF.
Proof. intro Hs. rewrite complement16_value by assumption. lia. Qed.

(** ** The implemented fold against the reference fold *)

Lemma add_fold_accumulate (sum w : Z) :
  0 <= sum <= 0xFFFF -> 0 <= w <= 0xFFFF ->
  add_fold sum w = Reference.accumulate sum w.
Proof.
  intros Hs Hw. rewrite add_fold_value by assumption.
  unfold Reference.accumulate, Reference.fold_carry.
  rewrite (Z.mod_small (sum + w)) by lia.
  destruct (Z.ltb_spec 0xFFFF (sum + w)) as [Hgt|Hle]; [|reflexivity].
  rewrite land_ffff, Z.shiftr_div_pow2 by lia.
  assert (Hq : (sum + w) / 2 ^ 16 = 1).
  { symmetry. apply Z.div_unique with (sum + w - 2 ^ 16); lia. }
  assert (Hr : (sum + w) mod 2 ^ 16 = sum + w - 2 ^ 16).
  { symmetry. apply Z.mod_unique with 1; lia. }
  rewrite Hq, Hr. lia.
Qed.

Lemma sum_loop_reference (b : list byte) :
  forall sum, 0 <= sum <= 0xFFFF ->
  sum_loop sum b = fold_left Reference.accumulate (Reference.words b) sum.
Proof.
  induction b as [|hi|hi lo rest IH] using pair_ind; intros sum Hs; simpl.
  - reflexivity.
  - change (u8 x00) with 0. rewrite Z.add_0_r, <- be_tail_value.
    apply add_fold_accumulate; [assumption | apply be_tail_range].
  - rewrite <- be_word_value.
    rewrite <- add_fold_accumulate by (assumption || apply be_word_range).
    apply IH. apply add_fold_range; [assumption | apply be_word_range].
Qed.

Lemma lnot_mask16 (sum : Z) :
  0 <= sum <= 0xFFFF -> Z.land (Z.lnot sum) 0xFFFF = 0xFFFF - sum.
Proof.
  intro Hs. rewrite land_ffff. unfold Z.lnot.
  replace (Z.pred (- sum)) with (0xFFFF - sum + (-1) * 2 ^ 16) by lia.
  rewrite Z.mod_add by lia. apply Z.mod_small. lia.
Qed.

(** C4. For every byte sequence, compute_checksum (which folds by
    adding the constant 1 whenever the 32-bit sum exceeds 0xFFFF)
    returns the value of the reference algorithm of the specification
    (big-endian words, odd tail padded with a low zero byte, fold
    [sum = (sum & 0xFFFF) + (sum >> 16)] whenever the sum exceeds
    0xFFFF, bitwise NOT masked to 16 bits); on the empty sequence it
    returns 0xFFFF, the one's complement of zero. *)
Theorem compute_checksum_matches_reference (b : list byte) :
  MainCpp.compute_checksum b = Reference.checksum b /\
  MainCpp.compute_checksum [] = 0xFFFF.
Proof.
  split.
  - unfold MainCpp.compute_checksum, Reference.checksum.
    pose proof (sum_loop_range b 0 ltac:(lia)) as Hr.
    rewrite complement16_value by exact Hr.
    rewrite <- sum_loop_reference by lia.
    symmetry. apply lnot_mask16. exact Hr.
  - unfold MainCpp.compute_checksum. simpl sum_loop.
    rewrite complement16_value by lia. reflexivity.
Qed.

(** ** One's-complement sums modulo 0xFFFF *)

Lemma add_fold_mod (sum w : Z) :
  0 <= sum <= 0xFFFF -> 0 <= w <= 0xFFFF ->
  add_fold sum w mod 0xFFFF = (sum + w) mod 0xFFFF.
Proof.
  intros Hs Hw. rewrite add_fold_value by assumption.
  destruct (Z.ltb_spec 0xFFFF (sum + w)); [|reflexivity].
  replace (sum + w - 65535) with (sum + w + (-1) * 65535) by lia.
  apply Z.mod_add. lia.
Qed.

Lemma sum_loop_mod (b : list byte) :
  forall sum, 0 <= sum <= 0xFFFF ->
  sum_loop sum b mod 0xFFFF = (sum + word_total b) mod 0xFFFF.
Proof.
  induction b as [|hi|hi lo rest IH] using pair_ind; intros sum Hs; simpl.
  - rewrite Z.add_0_r. reflexivity.
  - apply add_fold_mod; [assumption | apply be_tail_range].
  - rewrite IH by (apply add_fold_range; [assumption | apply be_word_range]).
    rewrite <- Zplus_mod_idemp_l.
    rewrite add_fold_mod by (assumption || apply be_word_range).
    rewrite Zplus_mod_idemp_l. f_equal. lia.
Qed.

(** A buffer that rule (a) accepts sums, as received, to 0x3333 modulo
    0xFFFF, never to 0xFFFF: the sender's 0xCCCC is missing from it. *)
Lemma sentinel_sum_residue (buf : list byte) :
  (6 <= length buf)%nat ->
  verify_sentinel buf = true ->
  sum_loop 0 buf mod 0xFFFF = 0x3333.
Proof.
  intros Hlen Hacc.
  destruct buf as [|b0 [|b1 [|b2 [|b3 [|b4 [|b5 rest]]]]]]; simpl in Hlen; try lia.
  set (forced := b0 :: b1 :: b2 :: b3 :: xcc :: xcc :: rest).
  unfold verify_sentinel, MainCpp.checksum_mismatch, MainCpp.compute_checksum in Hacc.
  change (<[5%nat:=xcc]> (<[4%nat:=xcc]> (b0 :: b1 :: b2 :: b3 :: b4 :: b5 :: rest)))
    with forced in Hacc.
  change (ntohs_at (b0 :: b1 :: b2 :: b3 :: b4 :: b5 :: rest) 4)
    with (be_word b4 b5) in Hacc.
  rewrite negb_involutive in Hacc. apply Z.eqb_eq in Hacc.
  pose proof (sum_loop_range forced 0 ltac:(lia)) as Hrf.
  rewrite complement16_value in Hacc by exact Hrf.
  pose proof (sum_loop_mod forced 0 ltac:(lia)) as Hf.
  rewrite (sum_loop_mod _ 0) by lia.
  revert Hf Hacc Hrf. generalize (sum_loop 0 forced). intros sf.
  subst forced. simpl word_total.
  change (be_word xcc xcc) with 0xCCCC.
  generalize (be_word b0 b1) (be_word b2 b3) (be_word b4 b5) (word_total rest).
  intros w0 w1 c t Hf Hacc Hrf.
  Z.div_mod_to_equations. lia.
Qed.

Lemma sentinel_rejects_whole (buf : list byte) :
  (6 <= length buf)%nat ->
  verify_sentinel buf = true -> verify_whole buf = false.
Proof.
  intros Hlen Hacc.
  pose proof (sentinel_sum_residue buf Hlen Hacc) as Hres.
  unfold verify_whole, SumCheck.validateChecksum.
  apply Z.eqb_neq. intro Heq. rewrite Heq in Hres. discriminate Hres.
Qed.

(** C2 (defect of the validateChecksum listing). The sensitive
    empty-body frame CC 40 00 00 66 F2 00 00 carries the checksum a
    sender computes with the field forced to 0xCC 0xCC.  Rule (a), in
    both listings that use it, accepts the frame, and read_ctmp and the
    first listing's readCtmpMessage keep it; rule (b), validateChecksum,
    sums it to 0x3333, not 0xFFFF, and the readCtmpMessage built on it
    drops the frame.  The two rules are not equivalent on this buffer. *)
Theorem verification_rules_disagree :
  let buf := [xcc; x40; x00; x00; x66; xf2; x00; x00] in
  verify_sentinel buf = true /\ verify_sentinel_early buf = true /\
  verify_whole buf = false /\ sum_loop 0 buf = 0x3333 /\
  MainCpp.read_ctmp (Sock buf []) [] = (true, buf, Sock [] [8; 0]) /\
  Early.readCtmpMessage (Sock buf []) [] = (true, buf, Sock [] [8; 0]) /\
  SumCheck.readCtmpMessage (Sock buf []) [] = (false, buf, Sock [] [8; 0]).
Proof. vm_compute. repeat split. Qed.

(** The disagreement is not confined to one frame: on a buffer holding
    at least the 8-byte header the two rules never both accept.
    Whatever rule (a) accepts, validateChecksum rejects, because the
    buffer as received then sums to 0x3333 modulo 0xFFFF and not to
    0xFFFF. *)
Theorem verification_rules_exclusive (buf : list byte) :
  (8 <= length buf)%nat ->
  verify_sentinel buf = true ->
  verify_whole buf = false /\ sum_loop 0 buf mod 0xFFFF = 0x3333.
Proof.
  intros Hlen Ha.
  assert (H6 : (6 <= length buf)%nat) by lia.
  split.
  - apply sentinel_rejects_whole; assumption.
  - apply sentinel_sum_residue; assumption.
Qed.

Lemma verification_rules_exclusive_witness :
  let buf := [xcc; x40; x00; x05; x43; x1b; x00; x00; x48; x65; x6c; x6c; x6f] in
  verify_whole buf = false /\ sum_loop 0 buf mod 0xFFFF = 0x3333.
Proof.
  apply (verification_rules_exclusive
           [xcc; x40; x00; x05; x43; x1b; x00; x00; x48; x65; x6c; x6c; x6f]).
  - simpl. lia.
  - vm_compute. reflexivity.
Defined.

(** ** Sealing a buffer and verifying it *)

Lemma be_word_store (c : Z) :
  0 <= c <= 0xFFFF ->
  be_word (to_u8 (Z.shiftr c 8)) (to_u8 (Z.land c 0xFF)) = c.
Proof.
  intro Hc. rewrite be_word_value, !u8_to_u8.
  rewrite Z.shiftr_div_pow2 by lia.
  change 0xFF with (Z.ones 8). rewrite Z.land_ones by lia.
  change (2 ^ 8) with 256.
  rewrite Z.mod_mod by lia.
  rewrite (Z.mod_small (c / 256)).
  - pose proof (Z.div_mod c 256 ltac:(lia)). lia.
  - split; [apply Z.div_pos; lia | apply Z.div_lt_upper_bound; lia].
Qed.

Lemma calculateChecksum_range (b : list byte) :
  0 <= Early.calculateChecksum b <= 0xFFFF.
Proof.
  unfold Early.calculateChecksum.
  apply complement16_range, sum_loop_range. lia.
Qed.

Lemma seal_accepted (buf : list byte) :
  (6 <= length buf)%nat ->
  verify_sentinel_early (seal buf) = true /\ verify_sentinel (seal buf) = true.
Proof.
  intro Hlen.
  destruct buf as [|b0 [|b1 [|b2 [|b3 [|b4 [|b5 rest]]]]]]; simpl in Hlen; try lia.
  set (forced := b0 :: b1 :: b2 :: b3 :: xcc :: xcc :: rest).
  set (c := Early.calculateChecksum forced).
  assert (Hseal : seal (b0 :: b1 :: b2 :: b3 :: b4 :: b5 :: rest) =
            b0 :: b1 :: b2 :: b3 ::
            to_u8 (Z.shiftr c 8) :: to_u8 (Z.land c 0xFF) :: rest) by reflexivity.
  rewrite Hseal.
  unfold verify_sentinel_early, verify_sentinel,
    Early.checksum_mismatch, MainCpp.checksum_mismatch, MainCpp.compute_checksum.
  change (<[4%nat:=xcc]> (<[5%nat:=xcc]> (b0 :: b1 :: b2 :: b3 ::
            to_u8 (Z.shiftr c 8) :: to_u8 (Z.land c 0xFF) :: rest))) with forced.
  change (<[5%nat:=xcc]> (<[4%nat:=xcc]> (b0 :: b1 :: b2 :: b3 ::
            to_u8 (Z.shiftr c 8) :: to_u8 (Z.land c 0xFF) :: rest))) with forced.
  change (ntohs_at (b0 :: b1 :: b2 :: b3 ::
            to_u8 (Z.shiftr c 8) :: to_u8 (Z.land c 0xFF) :: rest) 4)
    with (be_word (to_u8 (Z.shiftr c 8)) (to_u8 (Z.land c 0xFF))).
  rewrite be_word_store by apply calculateChecksum_range.
  fold (Early.calculateChecksum forced). fold c.
  rewrite !negb_involutive, Z.eqb_refl. split; reflexivity.
Qed.

(** C3 (defect of the validateChecksum listing). Sealing the sensitive
    empty-body header CC 40 00 00 .. .. 00 00 (checksum over the buffer
    with the field forced to 0xCC 0xCC, written into the field) gives
    CC 40 00 00 66 F2 00 00.  The verification of main.cpp and of the
    first listing succeeds on the sealed buffer; validateChecksum fails
    on it, so the relay built on validateChecksum forwards nothing and
    closes the producer where main.cpp forwards the frame. *)
Theorem sealed_buffer_fails_whole_sum :
  let sealed := seal [xcc; x40; x00; x00; x00; x00; x00; x00] in
  sealed = [xcc; x40; x00; x00; x66; xf2; x00; x00] /\
  MainCpp.checksum_mismatch sealed (ntohs_at sealed 4) = false /\
  Early.checksum_mismatch sealed (ntohs_at sealed 4) = false /\
  SumCheck.validateChecksum sealed = false /\
  option_map trace (run_relay SumCheck.readCtmpMessage quiet (Sock sealed []) [5] [])
    = Some [] /\
  option_map trace (run_relay MainCpp.read_ctmp quiet (Sock sealed []) [5] [])
    = Some [EvFrame sealed; EvSend 5 sealed 8].
Proof. vm_compute. repeat split. Qed.

(** Where the verification forces the sentinel (main.cpp, the first
    listing), sealing and verifying agree on every buffer: for every
    byte buffer with a 2-byte checksum field at offsets 4-5, computing
    the checksum over the buffer with that field forced to 0xCC 0xCC,
    writing the 16-bit result into the field, and then running the
    sentinel-forcing verification on the result always succeeds. *)
Theorem sealed_buffer_verifies (buf : list byte) :
  (6 <= length buf)%nat ->
  Early.checksum_mismatch (seal buf) (ntohs_at (seal buf) 4) = false /\
  MainCpp.checksum_mismatch (seal buf) (ntohs_at (seal buf) 4) = false.
Proof.
  intro Hlen.
  destruct (seal_accepted buf Hlen) as [He Hm].
  unfold verify_sentinel_early in He. unfold verify_sentinel in Hm.
  split; apply negb_true_iff; assumption.
Qed.

Lemma sealed_buffer_verifies_witness :
  let buf := [xcc; x40; x00; x05; x00; x00; x00; x00; x48; x65; x6c; x6c; x6f] in
  Early.checksum_mismatch (seal buf) (ntohs_at (seal buf) 4) = false /\
  MainCpp.checksum_mismatch (seal buf) (ntohs_at (seal buf) 4) = false.
Proof.
  apply (sealed_buffer_verifies
           [xcc; x40; x00; x05; x00; x00; x00; x00; x48; x65; x6c; x6c; x6f]).
  simpl. lia.
Defined.

(** ** Sockets and buffers *)

Lemma recv_waitall_exact (got rest : list byte) (log : list Z) (n : Z) :
  Z.of_nat (length got) = n ->
  recv_waitall (Sock (got ++ rest) log) n = (n, got, Sock rest (log ++ [n])).
Proof.
  intro Hn. unfold recv_waitall. simpl rx. simpl reqs.
  assert (Hk : Z.to_nat n = length got) by lia.
  rewrite Hk, take_app_length, drop_app_length, Hn. reflexivity.
Qed.

Lemma recv_waitall_inv (s s1 : socket) (n m : Z) (got : list byte) :
  recv_waitall s n = (m, got, s1) ->
  rx s = got ++ rx s1 /\ m = Z.of_nat (length got) /\
  reqs s1 = reqs s ++ [n] /\ got = take (Z.to_nat n) (rx s).
Proof.
  unfold recv_waitall. intro H. injection H as Hm Hg Hs.
  subst s1 got m. simpl. rewrite take_drop. auto.
Qed.

Lemma resize_length (n : nat) (v : list byte) : length (resize n v) = n.
Proof.
  unfold resize. rewrite length_app, length_take, length_replicate. lia.
Qed.

(** Header copied to the front, body received behind it: the buffer is
    the frame, whatever it held before. *)
Lemma frame_assembled (hdr body out : list byte) (len : Z) :
  length hdr = 8%nat -> Z.of_nat (length body) = len ->
  memcpy_at (memcpy_at (resize (Z.to_nat (HEADER_LEN + len)) out) 0 hdr) 8 body
  = hdr ++ body.
Proof.
  intros Hh Hb.
  set (r := resize (Z.to_nat (HEADER_LEN + len)) out).
  assert (Hr : length r = (8 + length body)%nat).
  { unfold r. rewrite resize_length. unfold HEADER_LEN. lia. }
  assert (H1 : memcpy_at r 0 hdr = hdr ++ drop 8 r).
  { unfold memcpy_at. rewrite Hh. reflexivity. }
  rewrite H1. unfold memcpy_at.
  rewrite (take_app_length' hdr) by (symmetry; exact Hh).
  rewrite drop_app_ge by lia.
  rewrite drop_drop, Hh.
  rewrite drop_ge by lia.
  rewrite app_nil_r. reflexivity.
Qed.

Lemma ntohs_at_range (p : list byte) (off : nat) : 0 <= ntohs_at p off <= 0xFFFF.
Proof. apply be_word_range. Qed.

(** ** The Stage 2 readers *)

(** A frame with good magic and padding and its whole body at the head
    of the stream is consumed exactly; it is kept unless it is
    sensitive and fails the checksum test. *)
Lemma read_stage2_framed (mismatch : list byte -> Z -> bool)
    (o lh ll c4 c5 : byte) (body rest out : list byte) (log : list Z) :
  Z.of_nat (length body) = be_word lh ll ->
  read_stage2 mismatch
    (Sock ([xcc; o; lh; ll; c4; c5; x00; x00] ++ body ++ rest) log) out =
  (if Z.land (u8 o) 0x40 =? 0 then true
   else negb (mismatch ([xcc; o; lh; ll; c4; c5; x00; x00] ++ body) (be_word c4 c5)),
   [xcc; o; lh; ll; c4; c5; x00; x00] ++ body,
   Sock rest ((log ++ [8]) ++ [be_word lh ll])).
Proof.
  intro Hb.
  set (hdr := [xcc; o; lh; ll; c4; c5; x00; x00]).
  unfold read_stage2.
  rewrite (recv_waitall_exact hdr (body ++ rest) log HEADER_LEN) by reflexivity.
  cbv beta iota.
  change (byte_at hdr 0) with MAGIC.
  change (byte_at hdr 6) with 0. change (byte_at hdr 7) with 0.
  change (byte_at hdr 1) with (u8 o).
  change (ntohs_at hdr 2) with (be_word lh ll).
  change (ntohs_at hdr 4) with (be_word c4 c5).
  rewrite !Z.eqb_refl. cbn [negb orb].
  pose proof (be_word_range lh ll) as Hr.
  destruct (Z.ltb_spec MAX_BODY (be_word lh ll)) as [Hgt|_];
    [unfold MAX_BODY in Hgt; lia|].
  rewrite (recv_waitall_exact body rest (log ++ [HEADER_LEN]) (be_word lh ll)) by exact Hb.
  cbv beta iota zeta.
  rewrite Z.eqb_refl. cbn [negb].
  rewrite (frame_assembled hdr body out (be_word lh ll)) by (reflexivity || exact Hb).
  destruct (Z.land (u8 o) 64 =? 0); cbn [negb]; [reflexivity|].
  destruct (mismatch (hdr ++ body) (be_word c4 c5)); reflexivity.
Qed.

Lemma read_ctmp_shape : MainCpp.read_ctmp = read_stage2 MainCpp.checksum_mismatch.
Proof. reflexivity. Qed.

Lemma readCtmpMessage_early_shape :
  Early.readCtmpMessage = read_stage2 Early.checksum_mismatch.
Proof. reflexivity. Qed.

Lemma readCtmpMessage_sum_shape :
  SumCheck.readCtmpMessage =
  read_stage2 (fun out _ => negb (SumCheck.validateChecksum out)).
Proof. reflexivity. Qed.

(** What a header and a body that were read in full look like. *)
Lemma header_of_full_read (s s1 : socket) (n : Z) (hdr : list byte) :
  recv_waitall s HEADER_LEN = (n, hdr, s1) -> (n =? HEADER_LEN) = true ->
  length hdr = 8%nat /\ rx s = hdr ++ rx s1 /\ reqs s1 = reqs s ++ [8] /\
  hdr = take 8 (rx s).
Proof.
  intros E En. apply recv_waitall_inv in E as (Hrx & Hn & Hq & Ht).
  apply Z.eqb_eq in En. unfold HEADER_LEN in *.
  repeat split; try assumption. lia.
Qed.

(** Every packet a Stage 2 reader keeps is a whole frame taken off the
    head of the stream: eight header bytes with good magic and padding
    and exactly the declared number of body bytes. *)
Lemma read_stage2_accept (mismatch : list byte -> Z -> bool)
    (s s' : socket) (out out' : list byte) :
  read_stage2 mismatch s out = (true, out', s') ->
  exists hdr body,
    length hdr = 8%nat /\ rx s = hdr ++ body ++ rx s' /\ out' = hdr ++ body /\
    byte_at hdr 0 = MAGIC /\ byte_at hdr 6 = 0 /\ byte_at hdr 7 = 0 /\
    Z.of_nat (length body) = ntohs_at hdr 2 /\
    reqs s' = reqs s ++ [8; ntohs_at hdr 2] /\
    (Z.land (byte_at hdr 1) 0x40 <> 0 -> mismatch out' (ntohs_at hdr 4) = false).
Proof.
  unfold read_stage2. intro H.
  destruct (recv_waitall s HEADER_LEN) as [[n hdr] s1] eqn:E1.
  destruct (n =? HEADER_LEN) eqn:En; cbn [negb] in H; [|discriminate H].
  destruct (byte_at hdr 0 =? MAGIC) eqn:Em; cbn [negb] in H; [|discriminate H].
  destruct (MAX_BODY <? ntohs_at hdr 2) eqn:El; [discriminate H|].
  destruct (byte_at hdr 6 =? 0) eqn:E6; cbn [negb orb] in H; [|discriminate H].
  destruct (byte_at hdr 7 =? 0) eqn:E7; cbn [negb orb] in H; [|discriminate H].
  destruct (recv_waitall s1 (ntohs_at hdr 2)) as [[m body] s2] eqn:E2.
  destruct (m =? ntohs_at hdr 2) eqn:Eb; cbn [negb] in H; [|discriminate H].
  destruct (header_of_full_read _ _ _ _ E1 En) as (Hh & Hrx & Hq & _).
  apply recv_waitall_inv in E2 as (Hrx2 & Hm & Hq2 & _).
  apply Z.eqb_eq in Em, E6, E7, Eb.
  assert (Hlen : Z.of_nat (length body) = ntohs_at hdr 2) by lia.
  rewrite (frame_assembled hdr body out (ntohs_at hdr 2) Hh Hlen) in H.
  assert (Hres : out' = hdr ++ body /\ s' = s2 /\
          (Z.land (byte_at hdr 1) 0x40 <> 0 ->
           mismatch (hdr ++ body) (ntohs_at hdr 4) = false)).
  { destruct (Z.land (byte_at hdr 1) 64 =? 0) eqn:Es; cbn [negb] in H.
    - apply Z.eqb_eq in Es. injection H as <- <-. repeat split; intro; contradiction.
    - destruct (mismatch (hdr ++ body) (ntohs_at hdr 4)) eqn:Ec; [discriminate H|].
      injection H as <- <-. repeat split; intro; reflexivity. }
  destruct Hres as (-> & -> & Hck).
  exists hdr, body. repeat split; try assumption.
  - rewrite Hrx, Hrx2. reflexivity.
  - rewrite Hq2, Hq, <- app_assoc. reflexivity.
Qed.

(** The requests a Stage 2 reader makes: the header, and after the
    magic, length and padding tests the declared body length, which two
    bytes cannot push above 65535. *)
Lemma read_stage2_requests (mismatch : list byte -> Z -> bool)
    (s : socket) (out : list byte) :
  let s' := snd (read_stage2 mismatch s out) in
  let len := ntohs_at (take 8 (rx s)) 2 in
  reqs s' = reqs s ++ [8] \/
  (reqs s' = reqs s ++ [8; len] /\ 0 <= len <= MAX_BODY /\
   (8 <= length (rx s))%nat /\
   byte_at (take 8 (rx s)) 0 = MAGIC /\
   byte_at (take 8 (rx s)) 6 = 0 /\ byte_at (take 8 (rx s)) 7 = 0).
Proof.
  unfold read_stage2.
  destruct (recv_waitall s HEADER_LEN) as [[n hdr] s1] eqn:E1.
  pose proof E1 as E1'. apply recv_waitall_inv in E1' as (_ & _ & Hq1 & _).
  destruct (n =? HEADER_LEN) eqn:En; cbn [negb]; [|left; exact Hq1].
  destruct (header_of_full_read _ _ _ _ E1 En) as (Hh & Hrx & _ & Ht).
  destruct (byte_at hdr 0 =? MAGIC) eqn:Em; cbn [negb]; [|left; exact Hq1].
  destruct (MAX_BODY <? ntohs_at hdr 2) eqn:El; [left; exact Hq1|].
  destruct (byte_at hdr 6 =? 0) eqn:E6; cbn [negb orb]; [|left; exact Hq1].
  destruct (byte_at hdr 7 =? 0) eqn:E7; cbn [negb orb]; [|left; exact Hq1].
  destruct (recv_waitall s1 (ntohs_at hdr 2)) as [[m body] s2] eqn:E2.
  apply recv_waitall_inv in E2 as (_ & _ & Hq2 & _).
  assert (Hs : reqs s2 = reqs s ++ [8; ntohs_at hdr 2]).
  { rewrite Hq2, Hq1, <- app_assoc. reflexivity. }
  apply Z.eqb_eq in Em, E6, E7. apply Z.ltb_ge in El.
  pose proof (ntohs_at_range hdr 2) as Hr.
  right. rewrite <- Ht.
  assert (H8 : (8 <= length (rx s))%nat).
  { rewrite Hrx, length_app. lia. }
  destruct (m =? ntohs_at hdr 2); cbn [negb];
    [destruct (Z.land (byte_at hdr 1) 64 =? 0); cbn [negb];
       [|destruct (mismatch _ _)] |];
    cbn [snd]; repeat split; try assumption; lia.
Qed.

(** ** The Stage 1 reader *)

Lemma memcmp_zero4 (a b c d : byte) (tl : list byte) :
  memcmp (a :: b :: c :: d :: tl) [x00; x00; x00; x00] 4 = 0 <->
  u8 a = 0 /\ u8 b = 0 /\ u8 c = 0 /\ u8 d = 0.
Proof.
  simpl. change (u8 x00) with 0.
  destruct (Z.eqb_spec (u8 a) 0) as [Ha|Ha]; [|split; [lia | tauto]].
  destruct (Z.eqb_spec (u8 b) 0) as [Hb|Hb]; [|split; [lia | tauto]].
  destruct (Z.eqb_spec (u8 c) 0) as [Hc|Hc]; [|split; [lia | tauto]].
  destruct (Z.eqb_spec (u8 d) 0) as [Hd|Hd]; [|split; [lia | tauto]].
  split; [intros _; repeat split; assumption | reflexivity].
Qed.

Lemma be_word_zero (hi lo : byte) : be_word hi lo = 0 <-> u8 hi = 0 /\ u8 lo = 0.
Proof.
  rewrite be_word_value. pose proof (u8_range hi). pose proof (u8_range lo). lia.
Qed.

Lemma eight_bytes (hdr : list byte) :
  length hdr = 8%nat ->
  exists b0 b1 b2 b3 b4 b5 b6 b7, hdr = [b0; b1; b2; b3; b4; b5; b6; b7].
Proof.
  intro H.
  destruct hdr as [|b0 [|b1 [|b2 [|b3 [|b4 [|b5 [|b6 [|b7 [|? ?]]]]]]]]];
    try discriminate H.
  eauto 10.
Qed.

(** A header whose options byte, checksum field or padding is not zero
    is turned down right after the header read: no body is requested,
    the buffer is left as it was. *)
Lemma get_ctmp_message_refuses (b0 b1 b2 b3 b4 b5 b6 b7 : byte)
    (rest msg : list byte) (log : list Z) :
  u8 b1 <> 0 \/ be_word b4 b5 <> 0 \/ u8 b6 <> 0 \/ u8 b7 <> 0 ->
  Stage1.get_ctmp_message
    (Sock ([b0; b1; b2; b3; b4; b5; b6; b7] ++ rest) log) msg =
  (false, msg, Sock rest (log ++ [8])).
Proof.
  intro Hbad.
  set (hdr := [b0; b1; b2; b3; b4; b5; b6; b7]).
  unfold Stage1.get_ctmp_message.
  rewrite (recv_waitall_exact hdr rest log HEADER_LEN) by reflexivity.
  cbv beta iota. rewrite Z.eqb_refl. cbn [negb].
  change (byte_at hdr 0) with (u8 b0). change (byte_at hdr 1) with (u8 b1).
  change (drop 4 hdr) with [b4; b5; b6; b7].
  destruct (u8 b0 =? MAGIC); cbn [negb orb]; [|reflexivity].
  destruct (Z.eqb_spec (u8 b1) 0) as [H1|H1]; cbn [negb orb]; [|reflexivity].
  destruct (Z.eqb_spec (memcmp [b4; b5; b6; b7] [x00; x00; x00; x00] 4) 0)
    as [Hz|Hz]; cbn [negb]; [|reflexivity].
  exfalso. apply memcmp_zero4 in Hz as (H4 & H5 & H6 & H7).
  destruct Hbad as [Ho|[Hc|[Hp|Hp]]]; try contradiction.
  apply Hc, be_word_zero. split; assumption.
Qed.

(** Every message the Stage 1 reader keeps has a zero options byte and
    zero bytes at offsets 4 to 7. *)
Lemma get_ctmp_message_accept (s s' : socket) (msg msg' : list byte) :
  Stage1.get_ctmp_message s msg = (true, msg', s') ->
  exists hdr body,
    length hdr = 8%nat /\ rx s = hdr ++ body ++ rx s' /\ msg' = hdr ++ body /\
    byte_at hdr 0 = MAGIC /\ byte_at hdr 1 = 0 /\
    byte_at hdr 4 = 0 /\ byte_at hdr 5 = 0 /\
    byte_at hdr 6 = 0 /\ byte_at hdr 7 = 0 /\
    Z.of_nat (length body) = ntohs_at hdr 2 /\
    reqs s' = reqs s ++ [8; ntohs_at hdr 2].
Proof.
  unfold Stage1.get_ctmp_message. intro H.
  destruct (recv_waitall s HEADER_LEN) as [[n hdr] s1] eqn:E1.
  destruct (n =? HEADER_LEN) eqn:En; cbn [negb] in H; [|discriminate H].
  destruct (byte_at hdr 0 =? MAGIC) eqn:Em; cbn [negb orb] in H; [|discriminate H].
  destruct (byte_at hdr 1 =? 0) eqn:Eo; cbn [negb orb] in H; [|discriminate H].
  destruct (memcmp (drop 4 hdr) [x00; x00; x00; x00] 4 =? 0) eqn:Ez;
    cbn [negb] in H; [|discriminate H].
  destruct (MAX_BODY <? ntohs_at hdr 2) eqn:El; [discriminate H|].
  destruct (recv_waitall s1 (ntohs_at hdr 2)) as [[m body] s2] eqn:E2.
  injection H as Hb Hmsg Hs. subst s'.
  destruct (header_of_full_read _ _ _ _ E1 En) as (Hh & Hrx & Hq & _).
  apply recv_waitall_inv in E2 as (Hrx2 & Hm & Hq2 & _).
  apply Z.eqb_eq in Em, Eo, Ez, Hb.
  assert (Hlen : Z.of_nat (length body) = ntohs_at hdr 2) by lia.
  rewrite (frame_assembled hdr body msg (ntohs_at hdr 2) Hh Hlen) in Hmsg.
  subst msg'.
  assert (Hzero : byte_at hdr 4 = 0 /\ byte_at hdr 5 = 0 /\
                  byte_at hdr 6 = 0 /\ byte_at hdr 7 = 0).
  { destruct (eight_bytes hdr Hh) as (b0 & b1 & b2 & b3 & b4 & b5 & b6 & b7 & ->).
    change (drop 4 [b0; b1; b2; b3; b4; b5; b6; b7]) with [b4; b5; b6; b7] in Ez.
    apply memcmp_zero4 in Ez. exact Ez. }
  destruct Hzero as (H4 & H5 & H6 & H7).
  exists hdr, body. repeat split; try assumption.
  - rewrite Hrx, Hrx2. reflexivity.
  - rewrite Hq2, Hq, <- app_assoc. reflexivity.
Qed.

Lemma get_ctmp_message_requests (s : socket) (msg : list byte) :
  let s' := snd (Stage1.get_ctmp_message s msg) in
  let len := ntohs_at (take 8 (rx s)) 2 in
  reqs s' = reqs s ++ [8] \/
  (reqs s' = reqs s ++ [8; len] /\ 0 <= len <= MAX_BODY /\
   (8 <= length (rx s))%nat /\ byte_at (take 8 (rx s)) 0 = MAGIC).
Proof.
  unfold Stage1.get_ctmp_message.
  destruct (recv_waitall s HEADER_LEN) as [[n hdr] s1] eqn:E1.
  pose proof E1 as E1'. apply recv_waitall_inv in E1' as (_ & _ & Hq1 & _).
  destruct (n =? HEADER_LEN) eqn:En; cbn [negb]; [|left; exact Hq1].
  destruct (header_of_full_read _ _ _ _ E1 En) as (Hh & Hrx & _ & Ht).
  destruct (byte_at hdr 0 =? MAGIC) eqn:Em; cbn [negb orb]; [|left; exact Hq1].
  destruct (byte_at hdr 1 =? 0); cbn [negb orb]; [|left; exact Hq1].
  destruct (memcmp (drop 4 hdr) [x00; x00; x00; x00] 4 =? 0);
    cbn [negb]; [|left; exact Hq1].
  destruct (MAX_BODY <? ntohs_at hdr 2) eqn:El; [left; exact Hq1|].
  destruct (recv_waitall s1 (ntohs_at hdr 2)) as [[m body] s2] eqn:E2.
  apply recv_waitall_inv in E2 as (_ & _ & Hq2 & _).
  apply Z.eqb_eq in Em. apply Z.ltb_ge in El.
  pose proof (ntohs_at_range hdr 2) as Hr.
  right. rewrite <- Ht. cbn [snd].
  repeat split; try assumption; try lia.
  - rewrite Hq2, Hq1, <- app_assoc. reflexivity.
  - rewrite Hrx, length_app. lia.
Qed.

(** ** The broadcast pass *)

Lemma broadcast_from_pass (send : send_oracle) (msg : list byte) (suf : list Z) :
  forall (pre : list Z) (tr : list event) (fuel : nat),
  (length suf <= fuel)%nat ->
  broadcast_from send fuel (length pre) msg (pre ++ suf) tr =
  Some (pre ++ fst (pass send msg suf tr), snd (pass send msg suf tr)).
Proof.
  induction suf as [|d rest IH]; intros pre tr fuel Hfuel.
  - assert (Hend : (pre ++ []) !! length pre = None).
    { apply lookup_ge_None. rewrite length_app. simpl. lia. }
    destruct fuel; simpl; rewrite Hend; reflexivity.
  - simpl in Hfuel. destruct fuel as [|fuel]; [lia|].
    simpl. rewrite list_lookup_middle by reflexivity.
    destruct (send tr d msg =? Z.of_nat (length msg)) eqn:Efull; cbn [negb].
    + replace (pre ++ d :: rest) with ((pre ++ [d]) ++ rest)
        by (rewrite <- app_assoc; reflexivity).
      replace (S (length pre)) with (length (pre ++ [d]))
        by (rewrite length_app; simpl; lia).
      rewrite IH by lia.
      destruct (pass send msg rest (tr ++ [EvSend d msg (send tr d msg)]))
        as [kept tr'].
      simpl. rewrite <- app_assoc. reflexivity.
    + rewrite delete_middle. apply IH. lia.
Qed.

Lemma broadcast_is_pass (send : send_oracle) (msg : list byte)
    (sinks : list Z) (tr : list event) :
  broadcast send msg sinks tr = Some (pass send msg sinks (tr ++ [EvFrame msg])).
Proof.
  unfold broadcast.
  rewrite (broadcast_from_pass send msg sinks [] _ (length sinks)) by lia.
  simpl. destruct (pass send msg sinks (tr ++ [EvFrame msg])). reflexivity.
Qed.

Lemma pass_log (send : send_oracle) (msg : list byte) (sinks : list Z) :
  forall tr, exists new,
    snd (pass send msg sinks tr) = tr ++ new /\
    map fst (attempts new) = sinks /\
    Forall (eq msg) (offered new) /\
    fst (pass send msg sinks tr) =
      map fst (List.filter (complete msg) (attempts new)) /\
    closes new =
      map fst (List.filter (fun a => negb (complete msg a)) (attempts new)) /\
    new = flat_map (fun a => EvSend (fst a) msg (snd a) ::
                             if complete msg a then [] else [EvClose (fst a)])
                   (attempts new).
Proof.
  induction sinks as [|d rest IH]; intro tr.
  - exists []. simpl. rewrite app_nil_r. repeat split. constructor.
  - simpl. set (n := send tr d msg).
    destruct (n =? Z.of_nat (length msg)) eqn:Efull.
    + destruct (IH (tr ++ [EvSend d msg n]))
        as (new & Htr & Hatt & Hoff & Hkept & Hcl & Hnew).
      destruct (pass send msg rest (tr ++ [EvSend d msg n])) as [kept tr'].
      simpl in *. exists (EvSend d msg n :: new).
      unfold complete at 1 2 3. simpl. rewrite Efull. simpl.
      repeat split.
      * rewrite Htr, <- app_assoc. reflexivity.
      * f_equal. exact Hatt.
      * constructor; [reflexivity | exact Hoff].
      * f_equal. exact Hkept.
      * exact Hcl.
      * f_equal. exact Hnew.
    + destruct (IH ((tr ++ [EvSend d msg n]) ++ [EvClose d]))
        as (new & Htr & Hatt & Hoff & Hkept & Hcl & Hnew).
      exists (EvSend d msg n :: EvClose d :: new).
      unfold complete at 1 2 3. simpl. rewrite Efull. simpl.
      repeat split.
      * rewrite Htr, <- !app_assoc. reflexivity.
      * f_equal. exact Hatt.
      * constructor; [reflexivity | exact Hoff].
      * exact Hkept.
      * f_equal. exact Hcl.
      * do 2 f_equal. exact Hnew.
Qed.

(** One more event at the front of a log that is answered. *)
Lemma answered_cons (snd_ : send_oracle) (tr : list event) (ev : event)
    (new : list event) :
  match ev with
  | EvSend d data n => n = snd_ tr d data
  | _ => True
  end ->
  answered snd_ (tr ++ [ev]) new ->
  answered snd_ tr (ev :: new).
Proof.
  intros Hev Hnew pre d data n post Heq.
  destruct pre as [|ev' pre'].
  - cbn [app] in Heq. injection Heq as ->.
    rewrite app_nil_r. exact Hev.
  - cbn [app] in Heq. injection Heq as <- Heq.
    rewrite (Hnew pre' d data n post Heq), <- app_assoc. reflexivity.
Qed.

(** The counts a pass logs are the ones [send] returned. *)
Lemma pass_answered (snd_ : send_oracle) (msg : list byte) (sinks : list Z) :
  forall tr, exists new,
    snd (pass snd_ msg sinks tr) = tr ++ new /\ answered snd_ tr new.
Proof.
  induction sinks as [|d rest IH]; intro tr.
  - exists []. simpl. rewrite app_nil_r. split; [reflexivity|].
    intros pre d data n post Heq. destruct pre; discriminate Heq.
  - cbn [pass]. set (n := snd_ tr d msg).
    destruct (n =? Z.of_nat (length msg)).
    + destruct (IH (tr ++ [EvSend d msg n])) as (new & Htr & Hans).
      destruct (pass snd_ msg rest (tr ++ [EvSend d msg n])) as [kept tr'].
      cbn [snd] in *. exists (EvSend d msg n :: new). split.
      * rewrite Htr, <- app_assoc. reflexivity.
      * apply answered_cons; [reflexivity | exact Hans].
    + destruct (IH ((tr ++ [EvSend d msg n]) ++ [EvClose d])) as (new & Htr & Hans).
      exists (EvSend d msg n :: EvClose d :: new). split.
      * rewrite Htr, <- !app_assoc. reflexivity.
      * apply answered_cons; [reflexivity|].
        apply answered_cons; [exact I | exact Hans].
Qed.

(** C6. A broadcast pass over the registered consumers makes exactly
    one write attempt per consumer, in registry order and with the
    whole frame, and the count logged for each attempt is the one the
    write returned; the registry afterwards holds exactly the consumers
    whose write returned the complete byte count, in their original
    order; each consumer whose write fell short was closed (right
    after its own attempt) and removed, and the attempts on the
    consumers after it were made all the same. *)
Theorem broadcast_prunes_exactly (send : send_oracle) (msg : list byte)
    (sinks : list Z) (tr : list event) :
  exists sinks' new,
    broadcast send msg sinks tr = Some (sinks', (tr ++ [EvFrame msg]) ++ new) /\
    map fst (attempts new) = sinks /\
    answered send (tr ++ [EvFrame msg]) new /\
    Forall (eq msg) (offered new) /\
    sinks' = map fst (List.filter (complete msg) (attempts new)) /\
    closes new =
      map fst (List.filter (fun a => negb (complete msg a)) (attempts new)) /\
    new = flat_map (fun a => EvSend (fst a) msg (snd a) ::
                             if complete msg a then [] else [EvClose (fst a)])
                   (attempts new).
Proof.
  rewrite broadcast_is_pass.
  destruct (pass_log send msg sinks (tr ++ [EvFrame msg]))
    as (new & Htr & Hatt & Hoff & Hkept & Hcl & Hnew).
  destruct (pass_answered send msg sinks (tr ++ [EvFrame msg]))
    as (new' & Htr' & Hans).
  destruct (pass send msg sinks (tr ++ [EvFrame msg])) as [kept tr'].
  cbn [fst snd] in Htr, Htr', Hkept. subst kept tr'.
  apply app_inv_head in Htr'. subst new'.
  exists (map fst (List.filter (complete msg) (attempts new))), new.
  repeat split; assumption.
Qed.

(** ** The relay loop *)

Lemma frame_shaped_app (hdr body : list byte) :
  length hdr = 8%nat ->
  byte_at hdr 0 = MAGIC -> byte_at hdr 6 = 0 -> byte_at hdr 7 = 0 ->
  Z.of_nat (length body) = ntohs_at hdr 2 ->
  frame_shaped (hdr ++ body).
Proof.
  intros Hh Hm H6 H7 Hb.
  destruct (eight_bytes hdr Hh) as (b0 & b1 & b2 & b3 & b4 & b5 & b6 & b7 & ->).
  unfold frame_shaped. rewrite length_app, Hh.
  change (ntohs_at ([b0; b1; b2; b3; b4; b5; b6; b7] ++ body) 2)
    with (ntohs_at [b0; b1; b2; b3; b4; b5; b6; b7] 2).
  repeat split; try assumption. lia.
Qed.

Lemma read_stage2_shaped (mismatch : list byte -> Z -> bool)
    (s s' : socket) (out out' : list byte) :
  read_stage2 mismatch s out = (true, out', s') ->
  frame_shaped out' /\ (length (rx s') < length (rx s))%nat.
Proof.
  intro H. apply read_stage2_accept in H
    as (hdr & body & Hh & Hrx & -> & Hm & H6 & H7 & Hb & _).
  split.
  - apply frame_shaped_app; assumption.
  - rewrite Hrx, !length_app. lia.
Qed.

Lemma read_stage2_takes (mismatch : list byte -> Z -> bool)
    (s s' : socket) (out out' : list byte) :
  read_stage2 mismatch s out = (true, out', s') -> rx s = out' ++ rx s'.
Proof.
  intro H. apply read_stage2_accept in H as (hdr & body & _ & Hrx & -> & _).
  rewrite Hrx, <- app_assoc. reflexivity.
Qed.

Lemma get_ctmp_message_shaped (s s' : socket) (msg msg' : list byte) :
  Stage1.get_ctmp_message s msg = (true, msg', s') ->
  frame_shaped msg' /\ (length (rx s') < length (rx s))%nat.
Proof.
  intro H. apply get_ctmp_message_accept in H
    as (hdr & body & Hh & Hrx & -> & Hm & _ & _ & _ & H6 & H7 & Hb & _).
  split.
  - apply frame_shaped_app; assumption.
  - rewrite Hrx, !length_app. lia.
Qed.

Section RelayFacts.

Variable read : reader.
Variable e : env.

Hypothesis read_shaped : forall s s' out out',
  read s out = (true, out', s') ->
  frame_shaped out' /\ (length (rx s') < length (rx s))%nat.

(** A pass logs nothing but the buffer it was given. *)
Lemma broadcast_carries (msg : list byte) (reg : list Z) (tr : list event) :
  exists reg' new,
    broadcast (send e) msg reg tr = Some (reg', tr ++ new) /\
    Forall (fun ev => Forall (eq msg) (event_data ev)) new.
Proof.
  rewrite broadcast_is_pass.
  destruct (pass_log (send e) msg reg (tr ++ [EvFrame msg]))
    as (new & Htr & _ & _ & _ & _ & Hnew).
  destruct (pass (send e) msg reg (tr ++ [EvFrame msg])) as [reg' tr'].
  cbn [snd] in Htr. subst tr'.
  exists reg', (EvFrame msg :: new). split.
  - rewrite <- app_assoc. reflexivity.
  - constructor; [repeat constructor|].
    rewrite Hnew. apply Forall_flat_map, Forall_forall. intros a _.
    destruct (complete msg a); repeat constructor.
Qed.

(** A reader's refusal ends the loop: the connection is closed, the
    registry and the consumers are left alone. *)
Lemma relay_loop_refused (fuel k : nat) (st : relay) (m : list byte) (s' : socket) :
  read (src st) (msg_buf st) = (false, m, s') ->
  exists st',
    relay_loop read e (S fuel) k st = Some st' /\
    src_open st' = false /\ trace st' = trace st /\ sinks st' = sinks st /\
    (running e k = true -> src st' = s' /\ msg_buf st' = m) /\
    (running e k = false -> src st' = src st).
Proof.
  intro Hread. simpl. destruct (running e k); cbn [negb].
  - rewrite Hread. cbn [negb]. eexists. split; [reflexivity|].
    simpl. repeat split; try discriminate; auto.
  - eexists. split; [reflexivity|].
    simpl. repeat split; try discriminate; auto.
Qed.

(** With fuel for every header still to arrive the loop returns; it
    returns with the connection closed, and everything it logged
    carries a well-shaped frame. *)
Lemma relay_loop_returns (fuel : nat) :
  forall (k : nat) (st : relay),
  (length (rx (src st)) < fuel)%nat ->
  exists st' new,
    relay_loop read e fuel k st = Some st' /\
    src_open st' = false /\
    trace st' = trace st ++ new /\
    Forall (fun ev => Forall frame_shaped (event_data ev)) new.
Proof.
  induction fuel as [|fuel IH]; intros k st Hfuel; [lia|].
  simpl. destruct (running e k); cbn [negb].
  2:{ eexists. exists []. split; [reflexivity|]. simpl.
      rewrite app_nil_r. repeat split. constructor. }
  destruct (read (src st) (msg_buf st)) as [[ok msg] s] eqn:Hread.
  destruct ok; cbn [negb].
  2:{ eexists. exists []. split; [reflexivity|]. simpl.
      rewrite app_nil_r. repeat split. constructor. }
  destruct (read_shaped _ _ _ _ Hread) as [Hshape Hless].
  destruct (broadcast_carries msg (churn e k (sinks st)) (trace st))
    as (reg' & new1 & Hb & Hnew1).
  rewrite Hb.
  destruct (IH (S k) (Relay s true msg reg' (trace st ++ new1)))
    as (st' & new2 & Hloop & Hclosed & Htr & Hnew2); [simpl; lia|].
  exists st', (new1 ++ new2). split; [exact Hloop|].
  split; [exact Hclosed|]. split.
  - rewrite Htr. simpl. rewrite app_assoc. reflexivity.
  - apply Forall_app. split; [|exact Hnew2].
    eapply Forall_impl; [exact Hnew1|].
    intros ev Hev. eapply Forall_impl; [exact Hev|].
    intros data <-. exact Hshape.
Qed.

End RelayFacts.

(** ** Checksum failures in main.cpp *)

(** C1 (counterexample). A sensitive, well-framed packet whose checksum
    is off by one (CC 40 00 00 66 F3 00 00, the right field is 66 F2),
    followed by a valid packet: the loop returns with the producer
    closed, nothing sent, and the valid packet still unread. *)
Lemma checksum_failure_closes_producer :
  let bad := [xcc; x40; x00; x00; x66; xf3; x00; x00] in
  let good := [xcc; x00; x00; x05; x00; x00; x00; x00;
               x48; x65; x6c; x6c; x6f] in
  frame_shaped bad /\
  Z.land (byte_at bad 1) 0x40 = 0x40 /\
  MainCpp.checksum_mismatch bad (ntohs_at bad 4) = true /\
  run_relay MainCpp.read_ctmp quiet (Sock (bad ++ good) []) [5] [] =
    Some (Relay (Sock good [8; 0]) false bad [5] []) /\
  exists st, run_relay MainCpp.read_ctmp quiet (Sock good []) [5] [] = Some st /\
             trace st = [EvFrame good; EvSend 5 good 13].
Proof.
  repeat split; try (vm_compute; reflexivity).
  eexists. split; vm_compute; reflexivity.
Qed.

(** C1 (amended). For every sensitive frame that passes all structural
    checks but fails the checksum test, read_ctmp consumes the frame
    and reports plain failure, and the relay loop treats it as any
    other failure: it stops reading, sends the frame to nobody, leaves
    the registry alone and closes the producer connection. *)
Theorem checksum_failure_ends_relay (e : env) (o lh ll c4 c5 : byte)
    (body rest buf : list byte) (log : list Z) (reg : list Z)
    (tr : list event) (fuel k : nat) :
  let hdr := [xcc; o; lh; ll; c4; c5; x00; x00] in
  Z.of_nat (length body) = be_word lh ll ->
  Z.land (u8 o) 0x40 <> 0 ->
  MainCpp.checksum_mismatch (hdr ++ body) (be_word c4 c5) = true ->
  MainCpp.read_ctmp (Sock (hdr ++ body ++ rest) log) buf =
    (false, hdr ++ body, Sock rest ((log ++ [8]) ++ [be_word lh ll])) /\
  exists st',
    MainCpp.source_loop e (S fuel) k
      (Relay (Sock (hdr ++ body ++ rest) log) true buf reg tr) = Some st' /\
    src_open st' = false /\ trace st' = tr /\ sinks st' = reg /\
    (running e k = true ->
     src st' = Sock rest ((log ++ [8]) ++ [be_word lh ll])).
Proof.
  intros hdr Hb Hs Hbad.
  assert (Hread : MainCpp.read_ctmp (Sock (hdr ++ body ++ rest) log) buf =
            (false, hdr ++ body, Sock rest ((log ++ [8]) ++ [be_word lh ll]))).
  { rewrite read_ctmp_shape.
    unfold hdr. rewrite read_stage2_framed by exact Hb.
    fold hdr. rewrite Hbad.
    destruct (Z.eqb_spec (Z.land (u8 o) 64) 0) as [Hz|_]; [contradiction|].
    reflexivity. }
  split; [exact Hread|].
  unfold MainCpp.source_loop.
  destruct (relay_loop_refused MainCpp.read_ctmp e fuel k
              (Relay (Sock (hdr ++ body ++ rest) log) true buf reg tr)
              _ _ Hread)
    as (st' & Hloop & Hclosed & Htr & Hreg & Hrun & _).
  exists st'. repeat split; try assumption.
  intro Hk. apply Hrun. exact Hk.
Qed.

Lemma checksum_failure_ends_relay_witness :
  MainCpp.read_ctmp
    (Sock ([xcc; x40; x00; x00; x66; xf3; x00; x00] ++ [] ++ [xcc; x00]) []) [] =
    (false, [xcc; x40; x00; x00; x66; xf3; x00; x00] ++ [],
     Sock [xcc; x00] (([] ++ [8]) ++ [be_word x00 x00])) /\
  exists st',
    MainCpp.source_loop quiet 1 0
      (Relay (Sock ([xcc; x40; x00; x00; x66; xf3; x00; x00] ++ [] ++ [xcc; x00]) [])
             true [] [5] []) = Some st' /\
    src_open st' = false /\ trace st' = [] /\ sinks st' = [5] /\
    (running quiet 0 = true ->
     src st' = Sock [xcc; x00] (([] ++ [8]) ++ [be_word x00 x00])).
Proof.
  apply (checksum_failure_ends_relay quiet x40 x00 x00 x66 xf3
           [] [xcc; x00] [] [] [5] [] 0 0).
  - reflexivity.
  - vm_compute. discriminate.
  - vm_compute. reflexivity.
Defined.

(** ** Frames that are not sensitive *)

(** C5 (counterexample). CC 00 00 00 12 34 00 00 is a well-framed,
    non-sensitive, empty-body frame with a checksum field of 0x1234:
    the Stage 1 reader turns it down. *)
Lemma stage1_rejects_nonzero_checksum :
  let frame := [xcc; x00; x00; x00; x12; x34; x00; x00] in
  frame_shaped frame /\ Z.land (byte_at frame 1) 0x40 = 0 /\
  Stage1.get_ctmp_message (Sock frame []) [] = (false, [], Sock [] [8]).
Proof. repeat split; vm_compute; reflexivity. Qed.

(** C5 (amended). In the Stage 2 readers (read_ctmp of main.cpp and the
    two readCtmpMessage listings) every frame with bit 0x40 of the
    options byte clear that has magic 0xCC, zero padding and the whole
    body of the declared length is read and kept, whatever the two
    bytes of the checksum field are. *)
Theorem nonsensitive_frame_accepted (o lh ll c4 c5 : byte)
    (body rest out : list byte) (log : list Z) :
  let hdr := [xcc; o; lh; ll; c4; c5; x00; x00] in
  let s := Sock (hdr ++ body ++ rest) log in
  let s' := Sock rest ((log ++ [8]) ++ [be_word lh ll]) in
  Z.of_nat (length body) = be_word lh ll ->
  Z.land (u8 o) 0x40 = 0 ->
  MainCpp.read_ctmp s out = (true, hdr ++ body, s') /\
  Early.readCtmpMessage s out = (true, hdr ++ body, s') /\
  SumCheck.readCtmpMessage s out = (true, hdr ++ body, s').
Proof.
  intros hdr s s' Hb Hs.
  rewrite read_ctmp_shape, readCtmpMessage_early_shape, readCtmpMessage_sum_shape.
  unfold s, hdr. rewrite !read_stage2_framed by exact Hb.
  rewrite Hs. simpl Z.eqb. repeat split.
Qed.

Lemma nonsensitive_frame_accepted_witness :
  let hdr := [xcc; x00; x00; x05; x12; x34; x00; x00] in
  let body := [x48; x65; x6c; x6c; x6f] in
  let s := Sock (hdr ++ body ++ [xcc]) [] in
  let s' := Sock [xcc] (([] ++ [8]) ++ [be_word x00 x05]) in
  MainCpp.read_ctmp s [] = (true, hdr ++ body, s') /\
  Early.readCtmpMessage s [] = (true, hdr ++ body, s') /\
  SumCheck.readCtmpMessage s [] = (true, hdr ++ body, s').
Proof.
  apply (nonsensitive_frame_accepted x00 x00 x05 x12 x34
           [x48; x65; x6c; x6c; x6f] [xcc] [] []).
  - reflexivity.
  - reflexivity.
Defined.

(** ** The length guard *)

(** C7. A frame whose declared length exceeds the bound of the length
    test is turned down right after the header read, before any body
    byte is requested: the reader returns false, leaves its buffer as
    it was and has requested the 8 header bytes only.  This holds for
    the test as it is written, whatever the bound; read_ctmp and
    get_ctmp_message are the readers with the bound [MAX_BODY] = 65535,
    for which the statement is the claim's (last line).  Two bytes
    declare at most 65535, so with that bound no header meets the
    condition. *)
Theorem oversize_length_rejected (limit : Z) (s : socket) (out : list byte) :
  let len := ntohs_at (take 8 (rx s)) 2 in
  let refused := (false, out, Sock (drop 8 (rx s)) (reqs s ++ [8])) in
  limit < len ->
  read_ctmp_limit limit s out = refused /\
  get_ctmp_message_limit limit s out = refused /\
  MainCpp.read_ctmp = read_ctmp_limit MAX_BODY /\
  Stage1.get_ctmp_message = get_ctmp_message_limit MAX_BODY /\
  (MAX_BODY < len ->
   MainCpp.read_ctmp s out = refused /\ Stage1.get_ctmp_message s out = refused).
Proof.
  intros len refused Hlen.
  assert (Hguard : forall lim, lim < len ->
            read_ctmp_limit lim s out = refused /\
            get_ctmp_message_limit lim s out = refused).
  { intros lim Hlim. unfold read_ctmp_limit, get_ctmp_message_limit.
    destruct (recv_waitall s HEADER_LEN) as [[n hdr] s1] eqn:E1.
    assert (Hs1 : s1 = Sock (drop 8 (rx s)) (reqs s ++ [8])).
    { unfold recv_waitall in E1. injection E1 as _ _ <-. reflexivity. }
    assert (Hhdr : hdr = take 8 (rx s)).
    { unfold recv_waitall in E1. injection E1 as _ <- _. reflexivity. }
    fold len in Hhdr. subst s1 hdr. fold len.
    apply Z.ltb_lt in Hlim. rewrite Hlim.
    split.
    - destruct (negb (n =? HEADER_LEN)); [reflexivity|].
      destruct (negb (byte_at (take 8 (rx s)) 0 =? MAGIC)); reflexivity.
    - destruct (negb (n =? HEADER_LEN)); [reflexivity|].
      destruct (negb (byte_at (take 8 (rx s)) 0 =? MAGIC)
                || negb (byte_at (take 8 (rx s)) 1 =? 0)); [reflexivity|].
      destruct (negb (memcmp (drop 4 (take 8 (rx s))) [x00; x00; x00; x00] 4 =? 0));
        reflexivity. }
  destruct (Hguard limit Hlen) as [Hr Hg].
  split; [exact Hr|]. split; [exact Hg|].
  split; [reflexivity|]. split; [reflexivity|].
  intro Hmax. exact (Hguard MAX_BODY Hmax).
Qed.

Lemma oversize_length_rejected_witness :
  let s := Sock ([xcc; x00; x01; x00; x00; x00; x00; x00] ++ [x41]) [] in
  let refused := (false, [], Sock [x41] [8]) in
  read_ctmp_limit 255 s [] = refused /\
  get_ctmp_message_limit 255 s [] = refused /\
  MainCpp.read_ctmp = read_ctmp_limit MAX_BODY /\
  Stage1.get_ctmp_message = get_ctmp_message_limit MAX_BODY /\
  (MAX_BODY < 256 ->
   MainCpp.read_ctmp s [] = refused /\ Stage1.get_ctmp_message s [] = refused).
Proof.
  apply (oversize_length_rejected 255
           (Sock ([xcc; x00; x01; x00; x00; x00; x00; x00] ++ [x41]) []) []).
  vm_compute. reflexivity.
Defined.

(** No header declares a length above 65535, so the length test of the
    listings never fires.  read_ctmp and get_ctmp_message request the 8
    header bytes and then at most one body read, of exactly the
    declared length (at most 65535 bytes), made only for a complete
    header with the magic byte. *)
Theorem body_request_bounded (s : socket) (out : list byte) :
  let len := ntohs_at (take 8 (rx s)) 2 in
  (MAX_BODY <? len) = false /\
  (reqs (snd (MainCpp.read_ctmp s out)) = reqs s ++ [8] \/
   reqs (snd (MainCpp.read_ctmp s out)) = reqs s ++ [8; len] /\
   (8 <= length (rx s))%nat /\ byte_at (take 8 (rx s)) 0 = MAGIC) /\
  (reqs (snd (Stage1.get_ctmp_message s out)) = reqs s ++ [8] \/
   reqs (snd (Stage1.get_ctmp_message s out)) = reqs s ++ [8; len] /\
   (8 <= length (rx s))%nat /\ byte_at (take 8 (rx s)) 0 = MAGIC).
Proof.
  intro len. split; [|split].
  - apply Z.ltb_ge. pose proof (ntohs_at_range (take 8 (rx s)) 2).
    unfold len, MAX_BODY. lia.
  - rewrite read_ctmp_shape.
    destruct (read_stage2_requests MainCpp.checksum_mismatch s out)
      as [H|(H & _ & H8 & Hm & _)]; [left; exact H | right].
    repeat split; assumption.
  - destruct (get_ctmp_message_requests s out)
      as [H|(H & _ & H8 & Hm)]; [left; exact H | right].
    repeat split; assumption.
Qed.

(** ** Stage 1 *)

(** C9. The Stage 1 proxy keeps a frame only if the options byte is
    0x00 and the four bytes at offsets 4-7 are zero: for every header
    with a nonzero options byte, a nonzero checksum field or nonzero
    padding, get_ctmp_message returns failure right after the header
    read, and handle_source stops, sends nothing and closes the source
    connection. *)
Theorem stage1_rejects_options_and_checksum (e : env)
    (b0 b1 b2 b3 b4 b5 b6 b7 : byte) (rest msg : list byte) (log : list Z)
    (reg : list Z) (tr : list event) (fuel k : nat) :
  let s := Sock ([b0; b1; b2; b3; b4; b5; b6; b7] ++ rest) log in
  u8 b1 <> 0 \/ be_word b4 b5 <> 0 \/ u8 b6 <> 0 \/ u8 b7 <> 0 ->
  Stage1.get_ctmp_message s msg = (false, msg, Sock rest (log ++ [8])) /\
  exists st',
    Stage1.handle_source e (S fuel) k (Relay s true msg reg tr) = Some st' /\
    src_open st' = false /\ trace st' = tr /\ sinks st' = reg.
Proof.
  intros s Hbad.
  pose proof (get_ctmp_message_refuses b0 b1 b2 b3 b4 b5 b6 b7 rest msg log Hbad)
    as Hread.
  split; [exact Hread|].
  unfold Stage1.handle_source.
  destruct (relay_loop_refused Stage1.get_ctmp_message e fuel k
              (Relay s true msg reg tr) _ _ Hread)
    as (st' & Hloop & Hclosed & Htr & Hreg & _).
  exists st'. repeat split; assumption.
Qed.

Lemma stage1_rejects_options_and_checksum_witness :
  let s := Sock ([xcc; x40; x00; x00; x00; x00; x00; x00] ++ [xcc]) [] in
  Stage1.get_ctmp_message s [] = (false, [], Sock [xcc] ([] ++ [8])) /\
  exists st',
    Stage1.handle_source quiet 1 0 (Relay s true [] [5] []) = Some st' /\
    src_open st' = false /\ trace st' = [] /\ sinks st' = [5].
Proof.
  apply (stage1_rejects_options_and_checksum quiet
           xcc x40 x00 x00 x00 x00 x00 x00 [xcc] [] [] [5] [] 0 0).
  left. vm_compute. discriminate.
Defined.

(** ** Further properties of the readers *)

(** Non-zero padding is turned down by every Stage 2 reader whatever
    the other header fields are, before any body byte is requested. *)
Theorem nonzero_padding_rejected (b0 b1 b2 b3 b4 b5 b6 b7 : byte)
    (rest out : list byte) (log : list Z) :
  let s := Sock ([b0; b1; b2; b3; b4; b5; b6; b7] ++ rest) log in
  u8 b6 <> 0 \/ u8 b7 <> 0 ->
  MainCpp.read_ctmp s out = (false, out, Sock rest (log ++ [8])) /\
  Early.readCtmpMessage s out = (false, out, Sock rest (log ++ [8])) /\
  SumCheck.readCtmpMessage s out = (false, out, Sock rest (log ++ [8])).
Proof.
  intros s Hpad.
  assert (H : forall mismatch,
            read_stage2 mismatch s out = (false, out, Sock rest (log ++ [8]))).
  { intro mismatch. unfold s.
    set (hdr := [b0; b1; b2; b3; b4; b5; b6; b7]).
    unfold read_stage2.
    rewrite (recv_waitall_exact hdr rest log HEADER_LEN) by reflexivity.
    cbv beta iota. rewrite Z.eqb_refl. cbn [negb].
    change (byte_at hdr 6) with (u8 b6). change (byte_at hdr 7) with (u8 b7).
    destruct (byte_at hdr 0 =? MAGIC); cbn [negb]; [|reflexivity].
    destruct (MAX_BODY <? ntohs_at hdr 2); [reflexivity|].
    destruct (Z.eqb_spec (u8 b6) 0) as [H6|H6]; cbn [negb orb]; [|reflexivity].
    destruct (Z.eqb_spec (u8 b7) 0) as [H7|H7]; cbn [negb orb]; [|reflexivity].
    destruct Hpad; contradiction. }
  rewrite read_ctmp_shape, readCtmpMessage_early_shape, readCtmpMessage_sum_shape.
  rewrite !H. repeat split.
Qed.

Lemma nonzero_padding_rejected_witness :
  let s := Sock ([xcc; x00; x00; x00; x00; x00; x00; x01] ++ [xcc]) [] in
  MainCpp.read_ctmp s [] = (false, [], Sock [xcc] ([] ++ [8])) /\
  Early.readCtmpMessage s [] = (false, [], Sock [xcc] ([] ++ [8])) /\
  SumCheck.readCtmpMessage s [] = (false, [], Sock [xcc] ([] ++ [8])).
Proof.
  apply (nonzero_padding_rejected xcc x00 x00 x00 x00 x00 x00 x01 [xcc] [] []).
  right. vm_compute. discriminate.
Defined.

(** A sensitive frame whose checksum field the sender computed with the
    field forced to 0xCC 0xCC is read and kept by main.cpp and by the
    first listing. *)
Theorem sealed_frame_accepted (o lh ll c4 c5 : byte)
    (body rest out : list byte) (log : list Z) :
  let frame := seal ([xcc; o; lh; ll; c4; c5; x00; x00] ++ body) in
  let s := Sock (frame ++ rest) log in
  let s' := Sock rest ((log ++ [8]) ++ [be_word lh ll]) in
  Z.of_nat (length body) = be_word lh ll ->
  MainCpp.read_ctmp s out = (true, frame, s') /\
  Early.readCtmpMessage s out = (true, frame, s').
Proof.
  intros frame s s' Hb.
  set (c := Early.calculateChecksum
              (force_sentinel ([xcc; o; lh; ll; c4; c5; x00; x00] ++ body))).
  assert (Hframe : frame =
            [xcc; o; lh; ll; to_u8 (Z.shiftr c 8); to_u8 (Z.land c 0xFF); x00; x00]
            ++ body) by reflexivity.
  destruct (seal_accepted ([xcc; o; lh; ll; c4; c5; x00; x00] ++ body))
    as [He Hm]; [simpl; lia|].
  fold frame in He, Hm.
  unfold verify_sentinel_early in He. unfold verify_sentinel in Hm.
  apply negb_true_iff in He, Hm.
  assert (Hck : ntohs_at frame 4 =
                be_word (to_u8 (Z.shiftr c 8)) (to_u8 (Z.land c 0xFF))).
  { rewrite Hframe. reflexivity. }
  rewrite Hck in He, Hm.
  rewrite read_ctmp_shape, readCtmpMessage_early_shape.
  unfold s. rewrite Hframe, <- app_assoc.
  rewrite !read_stage2_framed by exact Hb.
  rewrite <- Hframe, He, Hm.
  destruct (Z.land (u8 o) 64 =? 0); split; reflexivity.
Qed.

Lemma sealed_frame_accepted_witness :
  let frame := seal ([xcc; x40; x00; x05; x00; x00; x00; x00]
                       ++ [x48; x65; x6c; x6c; x6f]) in
  let s := Sock (frame ++ []) [] in
  let s' := Sock [] (([] ++ [8]) ++ [be_word x00 x05]) in
  MainCpp.read_ctmp s [] = (true, frame, s') /\
  Early.readCtmpMessage s [] = (true, frame, s').
Proof.
  apply (sealed_frame_accepted x40 x00 x05 x00 x00
           [x48; x65; x6c; x6c; x6f] [] [] []).
  reflexivity.
Defined.

(** ** Order of delivery, one pass at a time under the lock *)

Section Delivery.

Variable e : env.
Variable d : Z.

(** Every write to [d] is complete. *)
Hypothesis d_keeps_up : forall tr msg, send e tr d msg = Z.of_nat (length msg).

(** A pass writes the frame to [d] once per registry entry of [d], and
    keeps every one of those entries. *)
Lemma pass_delivers (msg : list byte) (reg : list Z) :
  forall tr, exists new,
    snd (pass (send e) msg reg tr) = tr ++ new /\
    sent_to d new = replicate (count_occ Z.eq_dec reg d) msg /\
    observed d new = concat (replicate (count_occ Z.eq_dec reg d) msg) /\
    frames_of new = [] /\
    count_occ Z.eq_dec (fst (pass (send e) msg reg tr)) d = count_occ Z.eq_dec reg d.
Proof.
  induction reg as [|x rest IH]; intro tr.
  - exists []. simpl. rewrite app_nil_r. repeat split.
  - cbn [pass]. set (n := send e tr x msg).
    destruct (Z.eq_dec x d) as [->|Hx].
    + unfold n. rewrite d_keeps_up, Z.eqb_refl.
      destruct (IH (tr ++ [EvSend d msg (Z.of_nat (length msg))]))
        as (new & Htr & Hsent & Hobs & Hfr & Hcnt).
      destruct (pass (send e) msg rest
                  (tr ++ [EvSend d msg (Z.of_nat (length msg))])) as [kept tr'].
      cbn [fst snd] in *.
      exists (EvSend d msg (Z.of_nat (length msg)) :: new).
      cbn [count_occ sent_to observed frames_of flat_map].
      destruct (Z.eq_dec d d) as [_|Hne]; [|contradiction].
      rewrite Z.eqb_refl, Nat2Z.id, firstn_all.
      fold (sent_to d new). fold (observed d new). fold (frames_of new).
      rewrite Htr, Hsent, Hobs, Hfr, Hcnt, <- app_assoc. repeat split.
    + assert (Hxd : (x =? d) = false) by (apply Z.eqb_neq; exact Hx).
      destruct (n =? Z.of_nat (length msg)).
      * destruct (IH (tr ++ [EvSend x msg n]))
          as (new & Htr & Hsent & Hobs & Hfr & Hcnt).
        destruct (pass (send e) msg rest (tr ++ [EvSend x msg n])) as [kept tr'].
        cbn [fst snd] in *.
        exists (EvSend x msg n :: new).
        cbn [count_occ sent_to observed frames_of flat_map].
        destruct (Z.eq_dec x d) as [Heq|_]; [contradiction|].
        rewrite Hxd.
        fold (sent_to d new). fold (observed d new). fold (frames_of new).
        rewrite Htr, <- app_assoc. repeat split; cbn [app]; assumption.
      * destruct (IH ((tr ++ [EvSend x msg n]) ++ [EvClose x]))
          as (new & Htr & Hsent & Hobs & Hfr & Hcnt).
        exists (EvSend x msg n :: EvClose x :: new).
        cbn [count_occ sent_to observed frames_of flat_map].
        destruct (Z.eq_dec x d) as [Heq|_]; [contradiction|].
        rewrite Hxd.
        fold (sent_to d new). fold (observed d new). fold (frames_of new).
        split; [rewrite Htr, <- !app_assoc; reflexivity|].
        repeat split; cbn [app]; assumption.
Qed.

Variable read : reader.

Hypothesis read_shaped : forall s s' out out',
  read s out = (true, out', s') ->
  frame_shaped out' /\ (length (rx s') < length (rx s))%nat.

Hypothesis read_takes : forall s s' out out',
  read s out = (true, out', s') -> rx s = out' ++ rx s'.

(** The consumer threads of other descriptors leave [d]'s entry alone. *)
Hypothesis d_stays : forall k reg,
  count_occ Z.eq_dec (churn e k reg) d = count_occ Z.eq_dec reg d.

Lemma relay_loop_in_order (fuel : nat) :
  forall (k : nat) (st : relay),
  (length (rx (src st)) < fuel)%nat ->
  count_occ Z.eq_dec (sinks st) d = 1%nat ->
  exists st' new,
    relay_loop read e fuel k st = Some st' /\
    trace st' = trace st ++ new /\
    sent_to d new = frames_of new /\
    observed d new = concat (frames_of new) /\
    (exists rest, rx (src st) = concat (frames_of new) ++ rest) /\
    count_occ Z.eq_dec (sinks st') d = 1%nat.
Proof.
  induction fuel as [|fuel IH]; intros k st Hfuel Hreg; [lia|].
  simpl. destruct (running e k); cbn [negb].
  2:{ eexists. exists []. split; [reflexivity|]. simpl.
      rewrite app_nil_r. repeat split; [|exact Hreg].
      exists (rx (src st)). reflexivity. }
  destruct (read (src st) (msg_buf st)) as [[ok msg] s] eqn:Hread.
  destruct ok; cbn [negb].
  2:{ eexists. exists []. split; [reflexivity|]. simpl.
      rewrite app_nil_r. repeat split; [|exact Hreg].
      exists (rx (src st)). reflexivity. }
  destruct (read_shaped _ _ _ _ Hread) as [_ Hless].
  pose proof (read_takes _ _ _ _ Hread) as Htake.
  rewrite broadcast_is_pass.
  destruct (pass_delivers msg (churn e k (sinks st)) (trace st ++ [EvFrame msg]))
    as (new1 & Htr1 & Hsent1 & Hobs1 & Hfr1 & Hcnt1).
  destruct (pass (send e) msg (churn e k (sinks st)) (trace st ++ [EvFrame msg]))
    as [reg' tr'].
  cbn [fst snd] in Htr1, Hcnt1. subst tr'.
  rewrite d_stays, Hreg in Hsent1, Hobs1, Hcnt1.
  destruct (IH (S k) (Relay s true msg reg' ((trace st ++ [EvFrame msg]) ++ new1)))
    as (st' & new2 & Hloop & Htr & Hsent2 & Hobs2 & [rest Hrest] & Hcnt2);
    [simpl; lia | exact Hcnt1 |].
  cbn [src] in Hrest.
  exists st', (EvFrame msg :: new1 ++ new2).
  split; [exact Hloop|]. split; [|split; [|split; [|split]]].
  - rewrite Htr. cbn [trace]. rewrite <- !app_assoc. reflexivity.
  - unfold sent_to, frames_of in *. cbn [flat_map].
    rewrite !flat_map_app, Hsent1, Hfr1, Hsent2. reflexivity.
  - unfold observed, frames_of in *. cbn [flat_map].
    rewrite !flat_map_app, Hobs1, Hfr1, Hobs2. simpl.
    rewrite app_nil_r. reflexivity.
  - exists rest. unfold frames_of in *. cbn [flat_map].
    rewrite flat_map_app, Hfr1. simpl.
    rewrite Htake, Hrest, <- app_assoc. reflexivity.
  - exact Hcnt2.
Qed.

End Delivery.

Lemma count_occ_unregister (d x : Z) (reg : list Z) :
  count_occ Z.eq_dec (unregister d reg) x =
  if x =? d then 0%nat else count_occ Z.eq_dec reg x.
Proof.
  unfold unregister. induction reg as [|y rest IH]; simpl.
  - destruct (x =? d); reflexivity.
  - destruct (Z.eqb_spec y d) as [->|Hy]; simpl.
    + rewrite IH. destruct (Z.eqb_spec x d) as [->|Hx]; [reflexivity|].
      destruct (Z.eq_dec d x) as [Heq|_]; [congruence | reflexivity].
    + rewrite IH. destruct (Z.eq_dec y x) as [->|Hyx]; [|reflexivity].
      destruct (Z.eqb_spec x d) as [Hx|_]; [contradiction | reflexivity].
Qed.

(** C8 (counterexample). Three one-byte frames F1, F2, F3 and two
    consumers registered before F1; the second write to consumer 5
    transfers 3 of the 9 bytes.  Consumer 5 sees F1 and the first 3
    bytes of F2 and is removed; consumer 6 sees F1, F2, F3. *)
Lemma short_write_truncates_delivery :
  let F1 := [xcc; x00; x00; x01; x00; x00; x00; x00; x41] in
  let F2 := [xcc; x00; x00; x01; x00; x00; x00; x00; x42] in
  let F3 := [xcc; x00; x00; x01; x00; x00; x00; x00; x43] in
  let e := Env (fun tr d msg =>
                  if (d =? 5) && (2 <=? Z.of_nat (length (frames_of tr)))
                  then 3 else Z.of_nat (length msg))
               (fun _ => true) (fun _ reg => reg) in
  exists st,
    run_relay MainCpp.read_ctmp e (Sock (F1 ++ F2 ++ F3) []) [5; 6] [] = Some st /\
    frames_of (trace st) = [F1; F2; F3] /\
    observed 5 (trace st) = F1 ++ take 3 F2 /\
    observed 6 (trace st) = F1 ++ F2 ++ F3 /\
    closes (trace st) = [5] /\ sinks st = [6].
Proof.
  eexists. split; [vm_compute; reflexivity|].
  repeat split; vm_compute; reflexivity.
Qed.

(** ** The registry is a list of descriptors *)

(** Registering does not look for an entry that is already there, a
    pass writes to a descriptor once per entry, and unregistering
    erases every entry of the descriptor.  A descriptor number that is
    handed out again before the erase of its previous connection ran
    is therefore listed twice, written twice per frame, and dropped
    altogether by that erase. *)
Theorem registry_counts_entries (snd_ : send_oracle) (d : Z) (msg : list byte)
    (reg : list Z) (tr : list event) :
  (forall tr0 m, snd_ tr0 d m = Z.of_nat (length m)) ->
  count_occ Z.eq_dec (register d reg) d = S (count_occ Z.eq_dec reg d) /\
  count_occ Z.eq_dec (unregister d (register d reg)) d = 0%nat /\
  exists reg' new,
    broadcast snd_ msg reg tr = Some (reg', (tr ++ [EvFrame msg]) ++ new) /\
    sent_to d new = replicate (count_occ Z.eq_dec reg d) msg /\
    count_occ Z.eq_dec reg' d = count_occ Z.eq_dec reg d.
Proof.
  intro Hsend. split; [|split].
  - unfold register. rewrite count_occ_app. simpl.
    destruct (Z.eq_dec d d) as [_|Hne]; [lia | contradiction].
  - rewrite count_occ_unregister, Z.eqb_refl. reflexivity.
  - rewrite broadcast_is_pass.
    destruct (pass_delivers (Env snd_ (fun _ => true) (fun _ r => r)) d Hsend
                msg reg (tr ++ [EvFrame msg]))
      as (new & Htr & Hsent & _ & _ & Hcnt).
    cbn [send] in Htr, Hcnt.
    destruct (pass snd_ msg reg (tr ++ [EvFrame msg])) as [reg' tr'].
    cbn [fst snd] in Htr, Hcnt. subst tr'.
    exists reg', new. repeat split; assumption.
Qed.

Lemma registry_counts_entries_witness :
  count_occ Z.eq_dec (register 5 [5; 5]) 5 = S (count_occ Z.eq_dec [5; 5] 5) /\
  count_occ Z.eq_dec (unregister 5 (register 5 [5; 5])) 5 = 0%nat /\
  exists reg' new,
    broadcast (send quiet) [xcc] [5; 5] [] =
      Some (reg', ([] ++ [EvFrame [xcc]]) ++ new) /\
    sent_to 5 new = replicate (count_occ Z.eq_dec [5; 5] 5) [xcc] /\
    count_occ Z.eq_dec reg' 5 = count_occ Z.eq_dec [5; 5] 5.
Proof.
  apply (registry_counts_entries (send quiet) 5 [xcc] [5; 5] []).
  intros tr0 m. reflexivity.
Defined.

(** ** Folding once at the end *)

Lemma words_total (b : list byte) :
  forall a, fold_left Z.add (Reference.words b) a = a + word_total b.
Proof.
  induction b as [|hi|hi lo rest IH] using pair_ind; intro a; simpl.
  - lia.
  - change (u8 x00) with 0. rewrite be_tail_value. lia.
  - rewrite IH, be_word_value. lia.
Qed.

Lemma word_total_bound (b : list byte) :
  0 <= word_total b /\ 2 * word_total b <= 0xFFFF * (Z.of_nat (length b) + 1).
Proof.
  induction b as [|hi|hi lo rest IH] using pair_ind.
  - simpl. lia.
  - pose proof (be_tail_range hi). simpl word_total. simpl length. lia.
  - pose proof (be_word_range hi lo). simpl word_total.
    change (length (hi :: lo :: rest)) with (S (S (length rest))). lia.
Qed.

Lemma add_fold_zero (sum w : Z) :
  0 <= sum <= 0xFFFF -> 0 <= w <= 0xFFFF ->
  (add_fold sum w = 0 <-> sum = 0 /\ w = 0).
Proof.
  intros Hs Hw. rewrite add_fold_value by assumption.
  destruct (Z.ltb_spec 0xFFFF (sum + w)); lia.
Qed.

Lemma sum_loop_zero (b : list byte) :
  forall sum, 0 <= sum <= 0xFFFF ->
  (sum_loop sum b = 0 <-> sum = 0 /\ word_total b = 0).
Proof.
  induction b as [|hi|hi lo rest IH] using pair_ind; intros sum Hs; simpl.
  - lia.
  - apply add_fold_zero; [assumption | apply be_tail_range].
  - pose proof (be_word_range hi lo) as Hw.
    pose proof (word_total_bound rest) as [Ht _].
    rewrite IH by (apply add_fold_range; assumption).
    rewrite add_fold_zero by assumption. lia.
Qed.

Lemma fold_until_value (t : Z) :
  0 <= t < 2 ^ 32 ->
  0 <= Reference.fold_until 3 t <= 0xFFFF /\
  Reference.fold_until 3 t mod 0xFFFF = t mod 0xFFFF /\
  (Reference.fold_until 3 t = 0 <-> t = 0).
Proof.
  intro Ht. simpl Reference.fold_until.
  rewrite !land_ffff, !Z.shiftr_div_pow2 by lia.
  change (2 ^ 16) with 65536. change (2 ^ 32) with 4294967296 in Ht.
  set (t1 := t mod 65536 + t / 65536).
  set (t2 := t1 mod 65536 + t1 / 65536).
  assert (H1 : 0 <= t1 <= 131070 /\ t1 mod 65535 = t mod 65535 /\ (0 < t -> 0 < t1)).
  { unfold t1. Z.div_mod_to_equations. lia. }
  assert (H2 : t1 mod 65535 = t2 mod 65535 /\ (0 < t1 -> 0 < t2) /\
               (65535 < t1 -> 0 <= t2 <= 65535)).
  { unfold t2. Z.div_mod_to_equations. lia. }
  destruct H1 as (Hr1 & Hm1 & Hp1). destruct H2 as (Hm2 & Hp2 & Hr2).
  destruct (Z.ltb_spec 65535 t) as [Hgt|Hle].
  - destruct (Z.ltb_spec 65535 t1) as [Hgt1|Hle1].
    + destruct (Z.ltb_spec 65535 t2) as [Hgt2|Hle2]; [lia|].
      repeat split; first [lia | congruence].
    + repeat split; lia.
  - repeat split; lia.
Qed.

(** Read the other way, the reference algorithm adds all the words and
    folds the carries once the sum is complete; for a buffer no longer
    than the largest frame (8 + 65535 bytes) the 32-bit sum cannot
    overflow and compute_checksum returns that value too. *)
Theorem compute_checksum_matches_deferred_fold (b : list byte) :
  Z.of_nat (length b) <= HEADER_LEN + MAX_BODY ->
  MainCpp.compute_checksum b = Reference.checksum_deferred b.
Proof.
  intro Hlen. unfold HEADER_LEN, MAX_BODY in Hlen.
  unfold MainCpp.compute_checksum, Reference.checksum_deferred.
  rewrite words_total, Z.add_0_l.
  pose proof (word_total_bound b) as [Ht0 Ht].
  assert (Ht32 : 0 <= word_total b < 2 ^ 32).
  { change (2 ^ 32) with 4294967296. lia. }
  rewrite (Z.mod_small _ _ Ht32).
  pose proof (sum_loop_range b 0 ltac:(lia)) as Hs.
  pose proof (sum_loop_mod b 0 ltac:(lia)) as Hsm. rewrite Z.add_0_l in Hsm.
  pose proof (sum_loop_zero b 0 ltac:(lia)) as Hsz.
  destruct (fold_until_value (word_total b) Ht32) as (Hr & Hrm & Hrz).
  rewrite complement16_value by exact Hs.
  rewrite lnot_mask16 by exact Hr.
  f_equal.
  set (s := sum_loop 0 b) in *.
  set (r := Reference.fold_until 3 (word_total b)) in *.
  set (t := word_total b) in *.
  clearbody s r t.
  assert (Hcases : s = r \/ (s = 0 /\ r = 65535) \/ (s = 65535 /\ r = 0)).
  { rewrite <- Hrm in Hsm. clear - Hs Hr Hsm. Z.div_mod_to_equations. lia. }
  destruct Hcases as [H|[[H0 H1]|[H0 H1]]]; [exact H | |].
  - assert (t = 0) by tauto. assert (r = 0) by tauto. lia.
  - assert (t = 0) by tauto. assert (s = 0) by tauto. lia.
Qed.

Lemma compute_checksum_matches_deferred_fold_witness :
  MainCpp.compute_checksum [xff; xff; xff; xff; x01] =
  Reference.checksum_deferred [xff; xff; xff; xff; x01].
Proof.
  apply (compute_checksum_matches_deferred_fold [xff; xff; xff; xff; x01]).
  vm_compute. discriminate.
Defined.

(** ** The other three listings *)

(** The relay loops of the Stage 1 listing and of the two other Stage 2
    listings return on every stream, with the source closed, and hand
    only well-shaped frames to the consumers. *)
Theorem every_listing_relays_frames (e : env) (s : socket) (reg : list Z)
    (tr : list event) :
  (exists st' new,
     run_relay Stage1.get_ctmp_message e s reg tr = Some st' /\
     src_open st' = false /\ trace st' = tr ++ new /\
     Forall (fun ev => Forall frame_shaped (event_data ev)) new) /\
  (exists st' new,
     run_relay Early.readCtmpMessage e s reg tr = Some st' /\
     src_open st' = false /\ trace st' = tr ++ new /\
     Forall (fun ev => Forall frame_shaped (event_data ev)) new) /\
  (exists st' new,
     run_relay SumCheck.readCtmpMessage e s reg tr = Some st' /\
     src_open st' = false /\ trace st' = tr ++ new /\
     Forall (fun ev => Forall frame_shaped (event_data ev)) new).
Proof.
  unfold run_relay.
  assert (Hfuel : (length (rx (src (start s reg tr))) < S (length (rx s)))%nat)
    by (simpl; lia).
  split; [|split].
  - destruct (relay_loop_returns Stage1.get_ctmp_message e
                get_ctmp_message_shaped _ 0 _ Hfuel)
      as (st' & new & H1 & H2 & H3 & H4).
    exists st', new. repeat split; assumption.
  - destruct (relay_loop_returns Early.readCtmpMessage e
                (fun s0 s1 out out' H =>
                   read_stage2_shaped Early.checksum_mismatch s0 s1 out out' H)
                _ 0 _ Hfuel)
      as (st' & new & H1 & H2 & H3 & H4).
    exists st', new. repeat split; assumption.
  - destruct (relay_loop_returns SumCheck.readCtmpMessage e
                (fun s0 s1 out out' H =>
                   read_stage2_shaped
                     (fun out0 _ => negb (SumCheck.validateChecksum out0))
                     s0 s1 out out' H)
                _ 0 _ Hfuel)
      as (st' & new & H1 & H2 & H3 & H4).
    exists st', new. repeat split; assumption.
Qed.

(** ** The checksum as a function of the word total *)

Lemma sum_loop_closed (b : list byte) :
  sum_loop 0 b =
  if word_total b =? 0 then 0 else (word_total b - 1) mod 0xFFFF + 1.
Proof.
  pose proof (sum_loop_range b 0 ltac:(lia)) as Hs.
  pose proof (sum_loop_mod b 0 ltac:(lia)) as Hm. rewrite Z.add_0_l in Hm.
  pose proof (sum_loop_zero b 0 ltac:(lia)) as Hz.
  pose proof (word_total_bound b) as [Ht _].
  set (s := sum_loop 0 b) in *. set (t := word_total b) in *. clearbody s t.
  destruct (Z.eqb_spec t 0) as [H0|H0].
  - tauto.
  - assert (Hs0 : s <> 0) by tauto.
    clear Hz. Z.div_mod_to_equations. lia.
Qed.

(** The checksum depends on the buffer only through the plain sum of
    its big-endian 16-bit words: it is 0xFFFF for a zero sum and the
    complement of the sum reduced into 1..0xFFFF otherwise. *)
Theorem compute_checksum_closed_form (b : list byte) :
  MainCpp.compute_checksum b =
  if word_total b =? 0 then 0xFFFF
  else 0xFFFF - ((word_total b - 1) mod 0xFFFF + 1).
Proof.
  unfold MainCpp.compute_checksum.
  rewrite complement16_value by (apply sum_loop_range; lia).
  rewrite sum_loop_closed.
  destruct (word_total b =? 0); reflexivity.
Qed.

Lemma word_total_app_even (pre l : list byte) :
  Nat.even (length pre) = true ->
  word_total (pre ++ l) = word_total pre + word_total l.
Proof.
  induction pre as [|x|x y rest IH] using pair_ind; intro He.
  - reflexivity.
  - discriminate He.
  - change (Nat.even (length (x :: y :: rest))) with (Nat.even (length rest)) in He.
    simpl. rewrite IH by exact He. lia.
Qed.

(** Two 16-bit words at even offsets can trade places without the
    checksum noticing. *)
Theorem compute_checksum_word_order (pre mid post : list byte) (a b c d : byte) :
  Nat.even (length pre) = true -> Nat.even (length mid) = true ->
  MainCpp.compute_checksum (pre ++ [a; b] ++ mid ++ [c; d] ++ post) =
  MainCpp.compute_checksum (pre ++ [c; d] ++ mid ++ [a; b] ++ post).
Proof.
  intros Hp Hm. unfold MainCpp.compute_checksum.
  rewrite !sum_loop_closed.
  assert (Ht : word_total (pre ++ [a; b] ++ mid ++ [c; d] ++ post) =
               word_total (pre ++ [c; d] ++ mid ++ [a; b] ++ post)).
  { rewrite !(word_total_app_even pre) by exact Hp.
    rewrite !(word_total_app_even [_; _]) by reflexivity.
    rewrite !(word_total_app_even mid) by exact Hm.
    rewrite !(word_total_app_even [_; _]) by reflexivity.
    lia. }
  rewrite Ht. reflexivity.
Qed.

Lemma compute_checksum_word_order_witness :
  MainCpp.compute_checksum
    ([xcc; x40] ++ [x01; x02] ++ [x00; x00] ++ [x03; x04] ++ [x05]) =
  MainCpp.compute_checksum
    ([xcc; x40] ++ [x03; x04] ++ [x00; x00] ++ [x01; x02] ++ [x05]).
Proof.
  apply (compute_checksum_word_order [xcc; x40] [x00; x00] [x05] x01 x02 x03 x04).
  - reflexivity.
  - reflexivity.
Defined.

Lemma word_total_zero_tail (b : list byte) :
  word_total (b ++ [x00]) = word_total b.
Proof.
  induction b as [|x|x y rest IH] using pair_ind; simpl.
  - reflexivity.
  - rewrite be_word_value, be_tail_value. change (u8 x00) with 0. lia.
  - rewrite IH. reflexivity.
Qed.

(** Zero bytes appended to a buffer, any number of them and whatever
    the parity of its length, leave the checksum as it was. *)
Theorem compute_checksum_trailing_zeros (b : list byte) (n : nat) :
  MainCpp.compute_checksum (b ++ replicate n x00) = MainCpp.compute_checksum b.
Proof.
  assert (Ht : forall m l, word_total (l ++ replicate m x00) = word_total l).
  { induction m as [|m IH]; intro l.
    - rewrite app_nil_r. reflexivity.
    - change (replicate (S m) x00) with ([x00] ++ replicate m x00).
      rewrite app_assoc, IH. apply word_total_zero_tail. }
  unfold MainCpp.compute_checksum. rewrite !sum_loop_closed, Ht. reflexivity.
Qed.

(** ** The whole-buffer rule and a field computed over zeros *)

Lemma compute_checksum_range (b : list byte) :
  0 <= MainCpp.compute_checksum b <= 0xFFFF.
Proof.
  unfold MainCpp.compute_checksum.
  apply complement16_range, sum_loop_range. lia.
Qed.

(** validateChecksum accepts every buffer whose checksum field holds
    the checksum computed over the buffer with the field zeroed. *)
Theorem zero_sealed_validates (buf : list byte) :
  (6 <= length buf)%nat ->
  SumCheck.validateChecksum (seal_zeroed buf) = true.
Proof.
  intro Hlen.
  destruct buf as [|b0 [|b1 [|b2 [|b3 [|b4 [|b5 rest]]]]]]; simpl in Hlen; try lia.
  set (zeroed := b0 :: b1 :: b2 :: b3 :: x00 :: x00 :: rest).
  set (c := MainCpp.compute_checksum zeroed).
  assert (Hseal : seal_zeroed (b0 :: b1 :: b2 :: b3 :: b4 :: b5 :: rest) =
            b0 :: b1 :: b2 :: b3 ::
            to_u8 (Z.shiftr c 8) :: to_u8 (Z.land c 0xFF) :: rest) by reflexivity.
  rewrite Hseal. unfold SumCheck.validateChecksum. apply Z.eqb_eq.
  rewrite sum_loop_closed. simpl word_total.
  pose proof (compute_checksum_range zeroed) as Hc. fold c in Hc.
  rewrite (be_word_store c Hc).
  assert (Hcv : c = 0xFFFF - sum_loop 0 zeroed).
  { unfold c, MainCpp.compute_checksum.
    apply complement16_value, sum_loop_range. lia. }
  rewrite sum_loop_closed in Hcv. unfold zeroed in Hcv. simpl word_total in Hcv.
  change (be_word x00 x00) with 0 in Hcv.
  pose proof (be_word_range b0 b1). pose proof (be_word_range b2 b3).
  pose proof (word_total_bound rest) as [Hr _].
  revert Hcv Hc.
  generalize (be_word b0 b1) (be_word b2 b3) (word_total rest) H H0 Hr.
  intros w0 w1 t Hw0 Hw1 Ht Hcv Hc.
  destruct (Z.eqb_spec (w0 + (w1 + (0 + t))) 0) as [Hz|Hz];
    destruct (Z.eqb_spec (w0 + (w1 + (c + t))) 0) as [Hz'|Hz'];
    try lia; Z.div_mod_to_equations; lia.
Qed.

Lemma zero_sealed_validates_witness :
  SumCheck.validateChecksum
    (seal_zeroed [xcc; x40; x00; x05; x00; x00; x00; x00;
                  x48; x65; x6c; x6c; x6f]) = true.
Proof.
  apply (zero_sealed_validates
           [xcc; x40; x00; x05; x00; x00; x00; x00; x48; x65; x6c; x6c; x6f]).
  simpl. lia.
Defined.

(** ** A changed byte *)

Lemma u8_inj (a b : byte) : u8 a = u8 b -> a = b.
Proof.
  unfold u8. intro H.
  assert (HN : Byte.to_N a = Byte.to_N b) by lia.
  pose proof (Byte.of_to_N a) as Ha. rewrite HN, Byte.of_to_N in Ha.
  congruence.
Qed.

Lemma word_total_insert (l : list byte) :
  forall (i : nat) (b0 b : byte),
  l !! i = Some b0 ->
  word_total (<[i:=b]> l) =
  word_total l + (u8 b - u8 b0) * (if Nat.even i then 256 else 1).
Proof.
  induction l as [|x|x y rest IH] using pair_ind; intros i b0 b Hi.
  - discriminate Hi.
  - destruct i as [|i]; [|destruct i; discriminate Hi].
    injection Hi as <-. simpl. rewrite !be_tail_value. lia.
  - destruct i as [|[|i]].
    + injection Hi as <-. simpl. rewrite !be_word_value. lia.
    + injection Hi as <-. simpl. rewrite !be_word_value. lia.
    + change (<[S (S i):=b]> (x :: y :: rest)) with (x :: y :: <[i:=b]> rest).
      change ((x :: y :: rest) !! S (S i)) with (rest !! i) in Hi.
      change (Nat.even (S (S i))) with (Nat.even i).
      simpl word_total. rewrite (IH i b0 b Hi). lia.
Qed.

(** Buffers whose word totals differ by one changed byte fold to
    different sums. *)
Lemma sum_loop_changed (l l' : list byte) (b0 b : byte) (w : Z) :
  (w = 1 \/ w = 256) -> b <> b0 ->
  word_total l' = word_total l + (u8 b - u8 b0) * w ->
  sum_loop 0 l' <> sum_loop 0 l.
Proof.
  intros Hw Hb Ht Heq.
  pose proof (sum_loop_mod l 0 ltac:(lia)) as Hm.
  pose proof (sum_loop_mod l' 0 ltac:(lia)) as Hm'.
  rewrite Z.add_0_l in Hm, Hm'. rewrite Heq, Hm, Ht in Hm'.
  assert (Hd : u8 b <> u8 b0) by (intro Hu; apply Hb, u8_inj, Hu).
  pose proof (u8_range b). pose proof (u8_range b0).
  revert Hm'. generalize (word_total l). intros t Hm'.
  destruct Hw as [-> | ->]; Z.div_mod_to_equations; lia.
Qed.

Lemma corrupted_byte_mismatch (buf : list byte) (i : nat) (b0 b' : byte) :
  (6 <= length buf)%nat ->
  buf !! i = Some b0 -> b' <> b0 ->
  verify_sentinel buf = true ->
  verify_sentinel (<[i:=b']> buf) = false.
Proof.
  intros Hlen Hi Hb Hacc.
  destruct buf as [|a0 [|a1 [|a2 [|a3 [|a4 [|a5 rest]]]]]]; simpl in Hlen; try lia.
  unfold verify_sentinel, MainCpp.checksum_mismatch, MainCpp.compute_checksum in *.
  rewrite negb_involutive in *. apply Z.eqb_eq in Hacc. apply Z.eqb_neq.
  change (<[5%nat:=xcc]> (<[4%nat:=xcc]> (a0 :: a1 :: a2 :: a3 :: a4 :: a5 :: rest)))
    with (a0 :: a1 :: a2 :: a3 :: xcc :: xcc :: rest) in Hacc.
  change (ntohs_at (a0 :: a1 :: a2 :: a3 :: a4 :: a5 :: rest) 4)
    with (be_word a4 a5) in Hacc.
  rewrite complement16_value in Hacc by (apply sum_loop_range; lia).
  rewrite complement16_value by (apply sum_loop_range; lia).
  set (forced := a0 :: a1 :: a2 :: a3 :: xcc :: xcc :: rest) in *.
  assert (Hstep : forall l' w,
            (w = 1 \/ w = 256) ->
            word_total l' = word_total forced + (u8 b' - u8 b0) * w ->
            65535 - sum_loop 0 l' <> be_word a4 a5).
  { intros l' w Hw Ht Heq.
    apply (sum_loop_changed forced l' b0 b' w Hw Hb Ht). lia. }
  assert (Hd : u8 b' <> u8 b0) by (intro Hu; apply Hb, u8_inj, Hu).
  destruct i as [|[|[|[|[|[|j]]]]]]; simpl in Hi.
  - injection Hi as ->. apply (Hstep _ 256); [tauto|].
    unfold forced. simpl. rewrite !be_word_value. lia.
  - injection Hi as ->. apply (Hstep _ 1); [tauto|].
    unfold forced. simpl. rewrite !be_word_value. lia.
  - injection Hi as ->. apply (Hstep _ 256); [tauto|].
    unfold forced. simpl. rewrite !be_word_value. lia.
  - injection Hi as ->. apply (Hstep _ 1); [tauto|].
    unfold forced. simpl. rewrite !be_word_value. lia.
  - injection Hi as ->.
    change (65535 - sum_loop 0 forced <> be_word b' a5).
    rewrite Hacc, !be_word_value. lia.
  - injection Hi as ->.
    change (65535 - sum_loop 0 forced <> be_word a4 b').
    rewrite Hacc, !be_word_value. lia.
  - change (65535 - sum_loop 0 (a0 :: a1 :: a2 :: a3 :: xcc :: xcc :: <[j:=b']> rest)
            <> be_word a4 a5).
    apply (Hstep _ (if Nat.even j then 256 else 1));
      [destruct (Nat.even j); tauto|].
    unfold forced. simpl word_total.
    rewrite (word_total_insert rest j b0 b' Hi). lia.
Qed.

(** Whatever single byte of a buffer that passes the sentinel test is
    replaced by a different one, header, checksum field or body, the
    test fails on the result. *)
Theorem changed_byte_fails_checksum (buf : list byte) (i : nat) (b0 b' : byte) :
  (8 <= length buf)%nat ->
  buf !! i = Some b0 -> b' <> b0 ->
  MainCpp.checksum_mismatch buf (ntohs_at buf 4) = false ->
  MainCpp.checksum_mismatch (<[i:=b']> buf) (ntohs_at (<[i:=b']> buf) 4) = true.
Proof.
  intros Hlen Hi Hb Hok.
  assert (Hacc : verify_sentinel buf = true).
  { unfold verify_sentinel. rewrite Hok. reflexivity. }
  pose proof (corrupted_byte_mismatch buf i b0 b' ltac:(lia) Hi Hb Hacc) as H.
  unfold verify_sentinel in H. apply negb_false_iff in H. exact H.
Qed.

Lemma changed_byte_fails_checksum_witness :
  MainCpp.checksum_mismatch
    (<[10%nat := x6d]> [xcc; x40; x00; x05; x43; x1b; x00; x00;
                        x48; x65; x6c; x6c; x6f])
    (ntohs_at (<[10%nat := x6d]> [xcc; x40; x00; x05; x43; x1b; x00; x00;
                                  x48; x65; x6c; x6c; x6f]) 4) = true.
Proof.
  apply (changed_byte_fails_checksum
           [xcc; x40; x00; x05; x43; x1b; x00; x00; x48; x65; x6c; x6c; x6f]
           10 x6c x6d).
  - simpl. lia.
  - reflexivity.
  - discriminate.
  - vm_compute. reflexivity.
Defined.

(** A sensitive frame the reader keeps, with one byte of its body
    replaced by a different one: read_ctmp consumes it, reports
    failure, and source_loop sends it to nobody and closes the
    producer. *)
Theorem changed_body_byte_rejected (e : env) (o lh ll c4 c5 : byte)
    (body rest out : list byte) (log : list Z) (i : nat) (b0 b' : byte)
    (reg : list Z) (tr : list event) (fuel k : nat) :
  let hdr := [xcc; o; lh; ll; c4; c5; x00; x00] in
  let body' := <[i:=b']> body in
  let s' := Sock rest ((log ++ [8]) ++ [be_word lh ll]) in
  Z.of_nat (length body) = be_word lh ll ->
  Z.land (u8 o) 0x40 <> 0 ->
  MainCpp.checksum_mismatch (hdr ++ body) (be_word c4 c5) = false ->
  body !! i = Some b0 -> b' <> b0 ->
  MainCpp.read_ctmp (Sock (hdr ++ body' ++ rest) log) out =
    (false, hdr ++ body', s') /\
  exists st',
    MainCpp.source_loop e (S fuel) k
      (Relay (Sock (hdr ++ body' ++ rest) log) true out reg tr) = Some st' /\
    src_open st' = false /\ trace st' = tr /\ sinks st' = reg.
Proof.
  intros hdr body' s' Hb Hs Hok Hi Hne.
  assert (Hbad : MainCpp.checksum_mismatch (hdr ++ body') (be_word c4 c5) = true).
  { assert (Hacc : verify_sentinel (hdr ++ body) = true).
    { unfold verify_sentinel.
      change (ntohs_at (hdr ++ body) 4) with (be_word c4 c5).
      rewrite Hok. reflexivity. }
    pose proof (corrupted_byte_mismatch (hdr ++ body) (8 + i) b0 b'
                  ltac:(rewrite length_app; simpl; lia) Hi Hne Hacc) as H.
    unfold verify_sentinel in H. apply negb_false_iff in H. exact H. }
  assert (Hread : MainCpp.read_ctmp (Sock (hdr ++ body' ++ rest) log) out =
                  (false, hdr ++ body', s')).
  { rewrite read_ctmp_shape. unfold hdr.
    rewrite read_stage2_framed
      by (unfold body'; rewrite length_insert; exact Hb).
    fold hdr. rewrite Hbad.
    destruct (Z.eqb_spec (Z.land (u8 o) 64) 0) as [Hz|_]; [contradiction|].
    reflexivity. }
  split; [exact Hread|].
  unfold MainCpp.source_loop.
  destruct (relay_loop_refused MainCpp.read_ctmp e fuel k
              (Relay (Sock (hdr ++ body' ++ rest) log) true out reg tr)
              _ _ Hread)
    as (st' & Hloop & Hclosed & Htr & Hreg & _).
  exists st'. repeat split; assumption.
Qed.

Lemma changed_body_byte_rejected_witness :
  let hdr := [xcc; x40; x00; x05; x43; x1b; x00; x00] in
  let body' := <[2%nat := x6d]> [x48; x65; x6c; x6c; x6f] in
  let s' := Sock [xcc] (([] ++ [8]) ++ [be_word x00 x05]) in
  MainCpp.read_ctmp (Sock (hdr ++ body' ++ [xcc]) []) [] =
    (false, hdr ++ body', s') /\
  exists st',
    MainCpp.source_loop quiet 1 0
      (Relay (Sock (hdr ++ body' ++ [xcc]) []) true [] [5] []) = Some st' /\
    src_open st' = false /\ trace st' = [] /\ sinks st' = [5].
Proof.
  apply (changed_body_byte_rejected quiet x40 x00 x05 x43 x1b
           [x48; x65; x6c; x6c; x6f] [xcc] [] [] 2 x6c x6d [5] [] 0 0).
  - reflexivity.
  - vm_compute. discriminate.
  - vm_compute. reflexivity.
  - reflexivity.
  - discriminate.
Defined.

(** ** Streams that end inside a frame, and a wrong magic byte *)

Lemma recv_waitall_short (s : socket) (n : Z) :
  (length (rx s) < Z.to_nat n)%nat ->
  recv_waitall s n = (Z.of_nat (length (rx s)), rx s, Sock [] (reqs s ++ [n])).
Proof.
  intro H. unfold recv_waitall.
  rewrite take_ge, drop_ge by lia. reflexivity.
Qed.

(** A stream that ends before the eighth header byte: every reader
    takes what there is, reports failure and leaves its buffer as it
    was; no body read is requested. *)
Theorem short_header_fails (s : socket) (out : list byte) :
  (length (rx s) < 8)%nat ->
  MainCpp.read_ctmp s out = (false, out, Sock [] (reqs s ++ [8])) /\
  Early.readCtmpMessage s out = (false, out, Sock [] (reqs s ++ [8])) /\
  SumCheck.readCtmpMessage s out = (false, out, Sock [] (reqs s ++ [8])) /\
  Stage1.get_ctmp_message s out = (false, out, Sock [] (reqs s ++ [8])).
Proof.
  intro Hlen.
  assert (Hrecv : recv_waitall s HEADER_LEN =
            (Z.of_nat (length (rx s)), rx s, Sock [] (reqs s ++ [8])))
    by (apply recv_waitall_short; simpl; lia).
  assert (Hn : (Z.of_nat (length (rx s)) =? HEADER_LEN) = false)
    by (apply Z.eqb_neq; unfold HEADER_LEN; lia).
  assert (H2 : forall mismatch,
            read_stage2 mismatch s out = (false, out, Sock [] (reqs s ++ [8]))).
  { intro mismatch. unfold read_stage2. rewrite Hrecv. cbv beta iota.
    rewrite Hn. reflexivity. }
  rewrite read_ctmp_shape, readCtmpMessage_early_shape, readCtmpMessage_sum_shape.
  rewrite !H2. repeat split.
  unfold Stage1.get_ctmp_message. rewrite Hrecv. cbv beta iota.
  rewrite Hn. reflexivity.
Qed.

Lemma short_header_fails_witness :
  let s := Sock [xcc; x00; x00] [] in
  MainCpp.read_ctmp s [x01] = (false, [x01], Sock [] (reqs s ++ [8])) /\
  Early.readCtmpMessage s [x01] = (false, [x01], Sock [] (reqs s ++ [8])) /\
  SumCheck.readCtmpMessage s [x01] = (false, [x01], Sock [] (reqs s ++ [8])) /\
  Stage1.get_ctmp_message s [x01] = (false, [x01], Sock [] (reqs s ++ [8])).
Proof.
  apply (short_header_fails (Sock [xcc; x00; x00] []) [x01]).
  simpl. lia.
Defined.

(** A stream that ends inside the body of a frame with a good header:
    the Stage 2 readers request the declared body length, take what
    there is and report failure, sensitive or not. *)
Theorem truncated_body_fails (o lh ll c4 c5 : byte) (part out : list byte)
    (log : list Z) :
  let s := Sock ([xcc; o; lh; ll; c4; c5; x00; x00] ++ part) log in
  let s' := Sock [] ((log ++ [8]) ++ [be_word lh ll]) in
  Z.of_nat (length part) < be_word lh ll ->
  (exists out', MainCpp.read_ctmp s out = (false, out', s')) /\
  (exists out', Early.readCtmpMessage s out = (false, out', s')) /\
  (exists out', SumCheck.readCtmpMessage s out = (false, out', s')).
Proof.
  intros s s' Hshort.
  assert (H2 : forall mismatch,
            exists out', read_stage2 mismatch s out = (false, out', s')).
  { intro mismatch. unfold s.
    set (hdr := [xcc; o; lh; ll; c4; c5; x00; x00]).
    unfold read_stage2.
    rewrite (recv_waitall_exact hdr part log HEADER_LEN) by reflexivity.
    cbv beta iota.
    change (byte_at hdr 0) with MAGIC.
    change (byte_at hdr 6) with 0. change (byte_at hdr 7) with 0.
    change (ntohs_at hdr 2) with (be_word lh ll).
    rewrite !Z.eqb_refl. cbn [negb orb].
    pose proof (be_word_range lh ll) as Hr.
    destruct (Z.ltb_spec MAX_BODY (be_word lh ll)) as [Hgt|_];
      [unfold MAX_BODY in Hgt; lia|].
    rewrite (recv_waitall_short (Sock part (log ++ [HEADER_LEN])))
      by (simpl; lia).
    cbv beta iota zeta. cbn [rx reqs].
    destruct (Z.eqb_spec (Z.of_nat (length part)) (be_word lh ll)) as [He|_];
      [lia|].
    cbn [negb]. eexists. reflexivity. }
  rewrite read_ctmp_shape, readCtmpMessage_early_shape, readCtmpMessage_sum_shape.
  repeat split; apply H2.
Qed.

Lemma truncated_body_fails_witness :
  let s := Sock ([xcc; x40; x00; x05; x43; x1b; x00; x00] ++ [x48; x65]) [] in
  let s' := Sock [] (([] ++ [8]) ++ [be_word x00 x05]) in
  (exists out', MainCpp.read_ctmp s [] = (false, out', s')) /\
  (exists out', Early.readCtmpMessage s [] = (false, out', s')) /\
  (exists out', SumCheck.readCtmpMessage s [] = (false, out', s')).
Proof.
  apply (truncated_body_fails x40 x00 x05 x43 x1b [x48; x65] [] []).
  vm_compute. reflexivity.
Defined.

(** A first byte other than 0xCC: every reader reports failure right
    after the header, whatever the other seven bytes are, requests no
    body and leaves its buffer as it was. *)
Theorem wrong_magic_rejected (b0 b1 b2 b3 b4 b5 b6 b7 : byte)
    (rest out : list byte) (log : list Z) :
  let s := Sock ([b0; b1; b2; b3; b4; b5; b6; b7] ++ rest) log in
  u8 b0 <> MAGIC ->
  MainCpp.read_ctmp s out = (false, out, Sock rest (log ++ [8])) /\
  Early.readCtmpMessage s out = (false, out, Sock rest (log ++ [8])) /\
  SumCheck.readCtmpMessage s out = (false, out, Sock rest (log ++ [8])) /\
  Stage1.get_ctmp_message s out = (false, out, Sock rest (log ++ [8])).
Proof.
  intros s Hm.
  set (hdr := [b0; b1; b2; b3; b4; b5; b6; b7]) in *.
  assert (Hrecv : recv_waitall s HEADER_LEN = (HEADER_LEN, hdr, Sock rest (log ++ [8])))
    by (apply (recv_waitall_exact hdr rest log HEADER_LEN); reflexivity).
  assert (Hmagic : (byte_at hdr 0 =? MAGIC) = false)
    by (apply Z.eqb_neq; exact Hm).
  assert (H2 : forall mismatch,
            read_stage2 mismatch s out = (false, out, Sock rest (log ++ [8]))).
  { intro mismatch. unfold read_stage2. rewrite Hrecv. cbv beta iota.
    rewrite Z.eqb_refl, Hmagic. reflexivity. }
  rewrite read_ctmp_shape, readCtmpMessage_early_shape, readCtmpMessage_sum_shape.
  rewrite !H2. repeat split.
  unfold Stage1.get_ctmp_message. rewrite Hrecv. cbv beta iota.
  rewrite Z.eqb_refl, Hmagic. reflexivity.
Qed.

Lemma wrong_magic_rejected_witness :
  let s := Sock ([xcd; x00; x00; x00; x00; x00; x00; x00] ++ [xcc]) [] in
  MainCpp.read_ctmp s [] = (false, [], Sock [xcc] ([] ++ [8])) /\
  Early.readCtmpMessage s [] = (false, [], Sock [xcc] ([] ++ [8])) /\
  SumCheck.readCtmpMessage s [] = (false, [], Sock [xcc] ([] ++ [8])) /\
  Stage1.get_ctmp_message s [] = (false, [], Sock [xcc] ([] ++ [8])).
Proof.
  apply (wrong_magic_rejected xcd x00 x00 x00 x00 x00 x00 x00 [xcc] [] []).
  vm_compute. discriminate.
Defined.

(** ** Stage 1 frames *)

Lemma get_ctmp_message_framed (lh ll : byte) (body rest msg : list byte)
    (log : list Z) :
  Z.of_nat (length body) = be_word lh ll ->
  Stage1.get_ctmp_message
    (Sock ([xcc; x00; lh; ll; x00; x00; x00; x00] ++ body ++ rest) log) msg =
  (true, [xcc; x00; lh; ll; x00; x00; x00; x00] ++ body,
   Sock rest ((log ++ [8]) ++ [be_word lh ll])).
Proof.
  intro Hb.
  set (hdr := [xcc; x00; lh; ll; x00; x00; x00; x00]).
  unfold Stage1.get_ctmp_message.
  rewrite (recv_waitall_exact hdr (body ++ rest) log HEADER_LEN) by reflexivity.
  cbv beta iota.
  change (byte_at hdr 0) with MAGIC. change (byte_at hdr 1) with 0.
  change (memcmp (drop 4 hdr) [x00; x00; x00; x00] 4) with 0.
  change (ntohs_at hdr 2) with (be_word lh ll).
  rewrite !Z.eqb_refl. cbn [negb orb].
  pose proof (be_word_range lh ll) as Hr.
  destruct (Z.ltb_spec MAX_BODY (be_word lh ll)) as [Hgt|_];
    [unfold MAX_BODY in Hgt; lia|].
  rewrite (recv_waitall_exact body rest (log ++ [HEADER_LEN]) (be_word lh ll)) by exact Hb.
  cbv beta iota zeta. rewrite Z.eqb_refl.
  rewrite (frame_assembled hdr body msg (be_word lh ll)) by (reflexivity || exact Hb).
  reflexivity.
Qed.

(** Whatever the Stage 1 reader keeps, the three Stage 2 readers keep
    too, with the same buffer and the same bytes left on the stream: a
    Stage 1 frame has a zero options byte and is never sensitive. *)
Theorem stage1_frames_pass_stage2 (s s' : socket) (out out' : list byte) :
  Stage1.get_ctmp_message s out = (true, out', s') ->
  MainCpp.read_ctmp s out = (true, out', s') /\
  Early.readCtmpMessage s out = (true, out', s') /\
  SumCheck.readCtmpMessage s out = (true, out', s').
Proof.
  intro H.
  apply get_ctmp_message_accept in H
    as (hdr & body & Hh & Hrx & -> & Hm & Ho & H4 & H5 & H6 & H7 & Hb & Hq).
  destruct (eight_bytes hdr Hh) as (b0 & b1 & b2 & b3 & b4 & b5 & b6 & b7 & ->).
  change (u8 b0 = u8 xcc) in Hm. apply u8_inj in Hm.
  change (u8 b1 = u8 x00) in Ho. apply u8_inj in Ho.
  change (u8 b6 = u8 x00) in H6. apply u8_inj in H6.
  change (u8 b7 = u8 x00) in H7. apply u8_inj in H7.
  subst b0 b1 b6 b7.
  change (ntohs_at [xcc; x00; b2; b3; b4; b5; x00; x00] 2) with (be_word b2 b3)
    in Hb, Hq.
  destruct s as [rxs logs]. destruct s' as [rxs' logs'].
  cbn [rx reqs] in Hrx, Hq. subst rxs logs'.
  assert (H2 : forall mismatch,
            read_stage2 mismatch
              (Sock ([xcc; x00; b2; b3; b4; b5; x00; x00] ++ body ++ rxs') logs) out =
            (true, [xcc; x00; b2; b3; b4; b5; x00; x00] ++ body,
             Sock rxs' (logs ++ [8; be_word b2 b3]))).
  { intro mismatch. rewrite read_stage2_framed by exact Hb.
    change (Z.land (u8 x00) 64 =? 0) with true. cbv iota.
    rewrite <- app_assoc. reflexivity. }
  rewrite read_ctmp_shape, readCtmpMessage_early_shape, readCtmpMessage_sum_shape.
  rewrite !H2. repeat split.
Qed.

Lemma stage1_frames_pass_stage2_witness :
  let s := Sock ([xcc; x00; x00; x01; x00; x00; x00; x00] ++ [x41] ++ [xcc]) [] in
  let out' := [xcc; x00; x00; x01; x00; x00; x00; x00] ++ [x41] in
  let s' := Sock [xcc] (([] ++ [8]) ++ [be_word x00 x01]) in
  MainCpp.read_ctmp s [] = (true, out', s') /\
  Early.readCtmpMessage s [] = (true, out', s') /\
  SumCheck.readCtmpMessage s [] = (true, out', s').
Proof.
  apply (stage1_frames_pass_stage2
           (Sock ([xcc; x00; x00; x01; x00; x00; x00; x00] ++ [x41] ++ [xcc]) [])).
  apply (get_ctmp_message_framed x00 x01 [x41] [xcc] [] []).
  reflexivity.
Defined.

(** The Stage 1 reader keeps a frame at the head of the stream exactly
    when its first byte is 0xCC, its bytes 1 and 4-7 are zero and the
    whole body of the declared length arrives. *)
Theorem stage1_keeps_exactly (b0 b1 b2 b3 b4 b5 b6 b7 : byte)
    (body rest msg : list byte) (log : list Z) :
  let hdr := [b0; b1; b2; b3; b4; b5; b6; b7] in
  Z.of_nat (length body) = be_word b2 b3 ->
  (fst (fst (Stage1.get_ctmp_message (Sock (hdr ++ body ++ rest) log) msg)) = true
   <->
   b0 = xcc /\ b1 = x00 /\ b4 = x00 /\ b5 = x00 /\ b6 = x00 /\ b7 = x00).
Proof.
  intros hdr Hb. split.
  - intro Hok.
    destruct (Stage1.get_ctmp_message (Sock (hdr ++ body ++ rest) log) msg)
      as [[ok msg'] s'] eqn:E.
    cbn [fst] in Hok. subst ok.
    apply get_ctmp_message_accept in E
      as (hdr' & body' & Hh & Hrx & _ & Hm & Ho & H4 & H5 & H6 & H7 & _).
    cbn [rx] in Hrx.
    assert (Hhdr : hdr' = hdr).
    { apply (f_equal (take 8)) in Hrx.
      rewrite (take_app_length' hdr') in Hrx by (symmetry; exact Hh).
      rewrite (take_app_length' hdr) in Hrx by reflexivity.
      symmetry. exact Hrx. }
    subst hdr'. unfold hdr in *.
    repeat split; apply u8_inj; assumption.
  - intros (-> & -> & -> & -> & -> & ->).
    unfold hdr. rewrite get_ctmp_message_framed by exact Hb. reflexivity.
Qed.

Lemma stage1_keeps_exactly_witness :
  fst (fst (Stage1.get_ctmp_message
              (Sock ([xcc; x00; x00; x01; x00; x00; x00; x00] ++ [x41] ++ [])
                    []) [])) = true
  <->
  xcc = xcc /\ x00 = x00 /\ x00 = x00 /\ x00 = x00 /\ x00 = x00 /\ x00 = x00.
Proof.
  apply (stage1_keeps_exactly xcc x00 x00 x01 x00 x00 x00 x00 [x41] [] [] []).
  reflexivity.
Defined.

(** ** A stream of good frames *)

Lemma read_stage2_short (mismatch : list byte -> Z -> bool)
    (s : socket) (out : list byte) :
  (length (rx s) < 8)%nat ->
  read_stage2 mismatch s out = (false, out, Sock [] (reqs s ++ [8])).
Proof.
  intro Hlen.
  assert (Hrecv : recv_waitall s HEADER_LEN =
            (Z.of_nat (length (rx s)), rx s, Sock [] (reqs s ++ [8])))
    by (apply recv_waitall_short; simpl; lia).
  unfold read_stage2. rewrite Hrecv. cbv beta iota.
  destruct (Z.eqb_spec (Z.of_nat (length (rx s))) HEADER_LEN) as [He|_];
    [unfold HEADER_LEN in He; lia | reflexivity].
Qed.

Lemma read_stage2_kept (mismatch : list byte -> Z -> bool)
    (f rest out : list byte) (log : list Z) :
  kept_frame mismatch f ->
  (8 <= length f)%nat /\
  exists log',
    read_stage2 mismatch (Sock (f ++ rest) log) out = (true, f, Sock rest log').
Proof.
  intros (o & lh & ll & c4 & c5 & body & Hf & Hb & Hck).
  split; [rewrite Hf, length_app; simpl; lia|].
  exists ((log ++ [8]) ++ [be_word lh ll]).
  rewrite Hf at 1. rewrite <- app_assoc.
  rewrite read_stage2_framed by exact Hb.
  rewrite <- Hf.
  destruct Hck as [Hs|Hck].
  - rewrite Hs. reflexivity.
  - rewrite Hck. destruct (Z.land (u8 o) 64 =? 0); reflexivity.
Qed.

Lemma pass_no_frames (snd_ : send_oracle) (msg : list byte) (reg : list Z) :
  forall tr, exists new,
    snd (pass snd_ msg reg tr) = tr ++ new /\ frames_of new = [].
Proof.
  induction reg as [|x rest IH]; intro tr.
  - exists []. simpl. rewrite app_nil_r. split; reflexivity.
  - cbn [pass]. set (n := snd_ tr x msg).
    destruct (n =? Z.of_nat (length msg)).
    + destruct (IH (tr ++ [EvSend x msg n])) as (new & Htr & Hfr).
      destruct (pass snd_ msg rest (tr ++ [EvSend x msg n])) as [kept tr'].
      cbn [snd] in *. exists (EvSend x msg n :: new).
      split; [rewrite Htr, <- app_assoc; reflexivity | exact Hfr].
    + destruct (IH ((tr ++ [EvSend x msg n]) ++ [EvClose x])) as (new & Htr & Hfr).
      exists (EvSend x msg n :: EvClose x :: new).
      split; [rewrite Htr, <- !app_assoc; reflexivity | exact Hfr].
Qed.

Lemma relay_loop_complete (mismatch : list byte -> Z -> bool) (e : env)
    (fs : list (list byte)) :
  (forall k, running e k = true) ->
  Forall (kept_frame mismatch) fs ->
  forall (fuel k : nat) (log : list Z) (out : list byte) (reg : list Z)
         (tr : list event),
  (length (concat fs) < fuel)%nat ->
  exists st' new,
    relay_loop (read_stage2 mismatch) e fuel k
      (Relay (Sock (concat fs) log) true out reg tr) = Some st' /\
    src_open st' = false /\ rx (src st') = [] /\
    trace st' = tr ++ new /\ frames_of new = fs.
Proof.
  intros Hrun Hfs. induction Hfs as [|f fs' Hf _ IH];
    intros fuel k log out reg tr Hfuel.
  - destruct fuel as [|fuel]; [lia|].
    cbn [relay_loop]. rewrite Hrun. cbn [negb src msg_buf concat].
    rewrite read_stage2_short by (simpl; lia). cbn [negb].
    eexists. exists []. split; [reflexivity|].
    simpl. rewrite app_nil_r. repeat split.
  - destruct fuel as [|fuel]; [lia|].
    destruct (read_stage2_kept mismatch f (concat fs') out log Hf)
      as [H8 [log' Hread]].
    cbn [relay_loop]. rewrite Hrun. cbn [negb src msg_buf sinks trace concat].
    rewrite Hread. cbn [negb].
    rewrite broadcast_is_pass.
    destruct (pass_no_frames (send e) f (churn e k reg) (tr ++ [EvFrame f]))
      as (new1 & Htr1 & Hfr1).
    destruct (pass (send e) f (churn e k reg) (tr ++ [EvFrame f])) as [reg' tr'].
    cbn [snd] in Htr1. subst tr'. cbv beta iota.
    destruct (IH fuel (S k) log' f reg' ((tr ++ [EvFrame f]) ++ new1))
      as (st' & new2 & Hloop & Hclosed & Hrx & Htr & Hfr2).
    { simpl in Hfuel. rewrite length_app in Hfuel. lia. }
    exists st', (EvFrame f :: new1 ++ new2).
    split; [exact Hloop|]. split; [exact Hclosed|]. split; [exact Hrx|]. split.
    + rewrite Htr, <- !app_assoc. reflexivity.
    + unfold frames_of in *. cbn [flat_map].
      rewrite flat_map_app, Hfr1, Hfr2. reflexivity.
Qed.

(** A producer that sends good frames back to back and then closes:
    while the flag stays set, main.cpp hands every one of them to the
    broadcast loop, in the order sent and once each, whatever the
    consumers do, and closes the connection at the end of the stream. *)
Theorem every_kept_frame_is_relayed (e : env) (fs : list (list byte))
    (log : list Z) (reg : list Z) (tr : list event) :
  (forall k, running e k = true) ->
  Forall (kept_frame MainCpp.checksum_mismatch) fs ->
  exists st' new,
    run_relay MainCpp.read_ctmp e (Sock (concat fs) log) reg tr = Some st' /\
    src_open st' = false /\ rx (src st') = [] /\
    trace st' = tr ++ new /\ frames_of new = fs.
Proof.
  intros Hrun Hfs. unfold run_relay, start. rewrite read_ctmp_shape.
  apply relay_loop_complete; [exact Hrun | exact Hfs | simpl; lia].
Qed.

Lemma every_kept_frame_is_relayed_witness :
  let F1 := [xcc; x00; x00; x01; x00; x00; x00; x00] ++ [x41] in
  let F2 := [xcc; x40; x00; x05; x43; x1b; x00; x00] ++
            [x48; x65; x6c; x6c; x6f] in
  exists st' new,
    run_relay MainCpp.read_ctmp busy (Sock (concat [F1; F2]) []) [5; 6] [] =
      Some st' /\
    src_open st' = false /\ rx (src st') = [] /\
    trace st' = [] ++ new /\ frames_of new = [F1; F2].
Proof.
  apply (every_kept_frame_is_relayed busy
           [[xcc; x00; x00; x01; x00; x00; x00; x00] ++ [x41];
            [xcc; x40; x00; x05; x43; x1b; x00; x00] ++
            [x48; x65; x6c; x6c; x6f]] [] [5; 6] []).
  - intro k. reflexivity.
  - constructor; [|constructor; [|constructor]].
    + exists x00, x00, x01, x00, x00, [x41].
      split; [reflexivity|]. split; [reflexivity|]. left. reflexivity.
    + exists x40, x00, x05, x43, x1b, [x48; x65; x6c; x6c; x6f].
      split; [reflexivity|]. split; [reflexivity|]. right.
      vm_compute. reflexivity.
Defined.

(** ** What one consumer gets of the stream *)

Section Consumer.

Variable e : env.
Variable d : Z.

(** A pass over a registry that does not list [d] leaves [d] alone. *)
Lemma pass_absent (msg : list byte) (reg : list Z) :
  count_occ Z.eq_dec reg d = 0%nat ->
  forall tr, exists new,
    snd (pass (send e) msg reg tr) = tr ++ new /\
    sent_to d new = [] /\ observed d new = [] /\ frames_of new = [] /\
    count_occ Z.eq_dec (closes new) d = 0%nat /\
    count_occ Z.eq_dec (fst (pass (send e) msg reg tr)) d = 0%nat.
Proof.
  induction reg as [|x rest IH]; intros Hcnt tr.
  - exists []. simpl. rewrite app_nil_r. repeat split.
  - cbn [count_occ] in Hcnt.
    destruct (Z.eq_dec x d) as [Heq|Hx]; [discriminate Hcnt|].
    assert (Hxd : (x =? d) = false) by (apply Z.eqb_neq; exact Hx).
    cbn [pass]. set (n := send e tr x msg).
    destruct (n =? Z.of_nat (length msg)).
    + destruct (IH Hcnt (tr ++ [EvSend x msg n]))
        as (new & Htr & Hsent & Hobs & Hfr & Hcl & Hreg).
      destruct (pass (send e) msg rest (tr ++ [EvSend x msg n])) as [kept tr'].
      cbn [fst snd] in *.
      exists (EvSend x msg n :: new).
      unfold sent_to, observed, frames_of, closes in *.
      cbn [count_occ flat_map app].
      destruct (Z.eq_dec x d) as [Heq|_]; [contradiction|].
      rewrite Hxd. cbn [app].
      split; [rewrite Htr, <- app_assoc; reflexivity|].
      repeat split; assumption.
    + destruct (IH Hcnt ((tr ++ [EvSend x msg n]) ++ [EvClose x]))
        as (new & Htr & Hsent & Hobs & Hfr & Hcl & Hreg).
      exists (EvSend x msg n :: EvClose x :: new).
      unfold sent_to, observed, frames_of, closes in *.
      cbn [count_occ flat_map app].
      destruct (Z.eq_dec x d) as [Heq|_]; [contradiction|].
      rewrite Hxd. cbn [app].
      split; [rewrite Htr, <- !app_assoc; reflexivity|].
      repeat split; assumption.
Qed.

(** A pass over a registry that lists [d] once writes the frame to [d]
    once; [d] keeps its entry when the write is complete and is closed
    and dropped when it is not. *)
Lemma pass_once (msg : list byte) (reg : list Z) :
  count_occ Z.eq_dec reg d = 1%nat ->
  forall tr, exists new n tr0,
    snd (pass (send e) msg reg tr) = tr ++ new /\
    n = send e tr0 d msg /\
    sent_to d new = [msg] /\ observed d new = take (Z.to_nat n) msg /\
    frames_of new = [] /\
    ((n = Z.of_nat (length msg) /\
      count_occ Z.eq_dec (closes new) d = 0%nat /\
      count_occ Z.eq_dec (fst (pass (send e) msg reg tr)) d = 1%nat) \/
     (n <> Z.of_nat (length msg) /\
      count_occ Z.eq_dec (closes new) d = 1%nat /\
      count_occ Z.eq_dec (fst (pass (send e) msg reg tr)) d = 0%nat)).
Proof.
  induction reg as [|x rest IH]; intros Hcnt tr; [discriminate Hcnt|].
  cbn [count_occ] in Hcnt. cbn [pass].
  destruct (Z.eq_dec x d) as [->|Hx].
  - injection Hcnt as Hcnt. set (n := send e tr d msg).
    destruct (Z.eqb_spec n (Z.of_nat (length msg))) as [Hn|Hn].
    + destruct (pass_absent msg rest Hcnt (tr ++ [EvSend d msg n]))
        as (new & Htr & Hsent & Hobs & Hfr & Hcl & Hreg).
      destruct (pass (send e) msg rest (tr ++ [EvSend d msg n])) as [kept tr'].
      cbn [fst snd] in *.
      exists (EvSend d msg n :: new), n, tr.
      unfold sent_to, observed, frames_of, closes in *.
      cbn [count_occ flat_map app].
      destruct (Z.eq_dec d d) as [_|Hne]; [|contradiction].
      rewrite Z.eqb_refl, Hsent, Hobs, Hreg. cbn [app].
      split; [rewrite Htr, <- app_assoc; reflexivity|].
      repeat split; try assumption; try apply app_nil_r.
      left. repeat split; assumption.
    + destruct (pass_absent msg rest Hcnt ((tr ++ [EvSend d msg n]) ++ [EvClose d]))
        as (new & Htr & Hsent & Hobs & Hfr & Hcl & Hreg).
      exists (EvSend d msg n :: EvClose d :: new), n, tr.
      unfold sent_to, observed, frames_of, closes in *.
      cbn [count_occ flat_map app].
      destruct (Z.eq_dec d d) as [_|Hne]; [|contradiction].
      rewrite Z.eqb_refl, Hsent, Hobs, Hcl. cbn [app].
      split; [rewrite Htr, <- !app_assoc; reflexivity|].
      repeat split; try assumption; try apply app_nil_r.
      right. repeat split; assumption.
  - assert (Hxd : (x =? d) = false) by (apply Z.eqb_neq; exact Hx).
    set (n := send e tr x msg).
    destruct (n =? Z.of_nat (length msg)).
    + destruct (IH Hcnt (tr ++ [EvSend x msg n]))
        as (new & m & tr0 & Htr & Hm & Hsent & Hobs & Hfr & Hcase).
      destruct (pass (send e) msg rest (tr ++ [EvSend x msg n])) as [kept tr'].
      cbn [fst snd] in *.
      exists (EvSend x msg n :: new), m, tr0.
      unfold sent_to, observed, frames_of, closes in *.
      cbn [count_occ flat_map app].
      destruct (Z.eq_dec x d) as [Heq|_]; [contradiction|].
      rewrite Hxd. cbn [app].
      split; [rewrite Htr, <- app_assoc; reflexivity|].
      repeat split; assumption.
    + destruct (IH Hcnt ((tr ++ [EvSend x msg n]) ++ [EvClose x]))
        as (new & m & tr0 & Htr & Hm & Hsent & Hobs & Hfr & Hcase).
      exists (EvSend x msg n :: EvClose x :: new), m, tr0.
      unfold sent_to, observed, frames_of, closes in *.
      cbn [count_occ flat_map app].
      destruct (Z.eq_dec x d) as [Heq|_]; [contradiction|].
      rewrite Hxd. cbn [app].
      split; [rewrite Htr, <- !app_assoc; reflexivity|].
      repeat split; assumption.
Qed.

Variable read : reader.

Hypothesis read_shaped : forall s s' out out',
  read s out = (true, out', s') ->
  frame_shaped out' /\ (length (rx s') < length (rx s))%nat.

(** The consumer threads of other descriptors leave [d]'s entry alone. *)
Hypothesis d_stays : forall k reg,
  count_occ Z.eq_dec (churn e k reg) d = count_occ Z.eq_dec reg d.

(** Once [d] is off the registry the relay never touches it again. *)
Lemma relay_loop_absent (fuel : nat) :
  forall (k : nat) (st : relay),
  (length (rx (src st)) < fuel)%nat ->
  count_occ Z.eq_dec (sinks st) d = 0%nat ->
  exists st' new,
    relay_loop read e fuel k st = Some st' /\
    trace st' = trace st ++ new /\
    sent_to d new = [] /\ observed d new = [] /\
    count_occ Z.eq_dec (closes new) d = 0%nat /\
    count_occ Z.eq_dec (sinks st') d = 0%nat.
Proof.
  induction fuel as [|fuel IH]; intros k st Hfuel Hreg; [lia|].
  simpl. destruct (running e k); cbn [negb].
  2:{ eexists. exists []. split; [reflexivity|]. simpl.
      rewrite app_nil_r. repeat split. exact Hreg. }
  destruct (read (src st) (msg_buf st)) as [[ok msg] s] eqn:Hread.
  destruct ok; cbn [negb].
  2:{ eexists. exists []. split; [reflexivity|]. simpl.
      rewrite app_nil_r. repeat split. exact Hreg. }
  destruct (read_shaped _ _ _ _ Hread) as [_ Hless].
  rewrite broadcast_is_pass.
  destruct (pass_absent msg (churn e k (sinks st))
              ltac:(rewrite d_stays; exact Hreg) (trace st ++ [EvFrame msg]))
    as (new1 & Htr1 & Hsent1 & Hobs1 & Hfr1 & Hcl1 & Hcnt1).
  destruct (pass (send e) msg (churn e k (sinks st)) (trace st ++ [EvFrame msg]))
    as [reg' tr'].
  cbn [fst snd] in Htr1, Hcnt1. subst tr'.
  destruct (IH (S k) (Relay s true msg reg' ((trace st ++ [EvFrame msg]) ++ new1)))
    as (st' & new2 & Hloop & Htr & Hsent2 & Hobs2 & Hcl2 & Hcnt2);
    [simpl; lia | exact Hcnt1 |].
  exists st', (EvFrame msg :: new1 ++ new2).
  split; [exact Hloop|]. split.
  { rewrite Htr. cbn [trace]. rewrite <- !app_assoc. reflexivity. }
  unfold sent_to, observed, closes in *. cbn [flat_map app].
  rewrite !flat_map_app, Hsent1, Hsent2, Hobs1, Hobs2, count_occ_app, Hcl1, Hcl2.
  repeat split. exact Hcnt2.
Qed.

(** While [d] is listed once, each pass writes it the frame of that
    pass; the first short write ends what [d] gets. *)
Lemma relay_loop_delivery (fuel : nat) :
  forall (k : nat) (st : relay),
  (length (rx (src st)) < fuel)%nat ->
  count_occ Z.eq_dec (sinks st) d = 1%nat ->
  exists st' new,
    relay_loop read e fuel k st = Some st' /\
    trace st' = trace st ++ new /\
    (delivered_all d (frames_of new) new (sinks st') \/
     cut_short (send e) d (frames_of new) new (sinks st')).
Proof.
  induction fuel as [|fuel IH]; intros k st Hfuel Hreg; [lia|].
  simpl. destruct (running e k); cbn [negb].
  2:{ eexists. exists []. split; [reflexivity|]. simpl.
      rewrite app_nil_r. split; [reflexivity|]. left.
      repeat split. exact Hreg. }
  destruct (read (src st) (msg_buf st)) as [[ok msg] s] eqn:Hread.
  destruct ok; cbn [negb].
  2:{ eexists. exists []. split; [reflexivity|]. simpl.
      rewrite app_nil_r. split; [reflexivity|]. left.
      repeat split. exact Hreg. }
  destruct (read_shaped _ _ _ _ Hread) as [_ Hless].
  rewrite broadcast_is_pass.
  destruct (pass_once msg (churn e k (sinks st))
              ltac:(rewrite d_stays; exact Hreg) (trace st ++ [EvFrame msg]))
    as (new1 & n & tr0 & Htr1 & Hn & Hsent1 & Hobs1 & Hfr1 & Hcase).
  destruct (pass (send e) msg (churn e k (sinks st)) (trace st ++ [EvFrame msg]))
    as [reg' tr'].
  cbn [fst snd] in Htr1, Hcase. subst tr'.
  destruct Hcase as [(Hfull & Hcl1 & Hcnt1) | (Hshort & Hcl1 & Hcnt1)].
  - destruct (IH (S k) (Relay s true msg reg' ((trace st ++ [EvFrame msg]) ++ new1)))
      as (st' & new2 & Hloop & Htr & Hcase2); [simpl; lia | exact Hcnt1 |].
    exists st', (EvFrame msg :: new1 ++ new2).
    split; [exact Hloop|]. split.
    { rewrite Htr. cbn [trace]. rewrite <- !app_assoc. reflexivity. }
    assert (Hfr : frames_of (EvFrame msg :: new1 ++ new2) = msg :: frames_of new2).
    { unfold frames_of in *. cbn [flat_map app].
      rewrite flat_map_app, Hfr1. reflexivity. }
    assert (Hsent : sent_to d (EvFrame msg :: new1 ++ new2) = msg :: sent_to d new2).
    { unfold sent_to in *. cbn [flat_map app].
      rewrite flat_map_app, Hsent1. reflexivity. }
    assert (Hobs : observed d (EvFrame msg :: new1 ++ new2) = msg ++ observed d new2).
    { unfold observed in *. cbn [flat_map app].
      rewrite flat_map_app, Hobs1, Hfull, Nat2Z.id, firstn_all. reflexivity. }
    assert (Hcl : count_occ Z.eq_dec (closes (EvFrame msg :: new1 ++ new2)) d =
                  count_occ Z.eq_dec (closes new2) d).
    { unfold closes in *. cbn [flat_map app].
      rewrite flat_map_app, count_occ_app, Hcl1. reflexivity. }
    rewrite Hfr.
    destruct Hcase2 as [(Hs2 & Ho2 & Hc2 & Hr2) | (j & f & m & tr1 & Hj & Hm & Hne & Hs2 & Ho2 & Hc2 & Hr2)].
    + left. unfold delivered_all. rewrite Hsent, Hobs, Hcl, Hs2, Ho2.
      repeat split; assumption.
    + right. exists (S j), f, m, tr1.
      rewrite Hsent, Hobs, Hcl, Hs2, Ho2.
      repeat split; try assumption.
      cbn [take concat]. rewrite <- app_assoc. reflexivity.
  - destruct (relay_loop_absent fuel (S k)
                (Relay s true msg reg' ((trace st ++ [EvFrame msg]) ++ new1)))
      as (st' & new2 & Hloop & Htr & Hsent2 & Hobs2 & Hcl2 & Hcnt2);
      [simpl; lia | exact Hcnt1 |].
    exists st', (EvFrame msg :: new1 ++ new2).
    split; [exact Hloop|]. split.
    { rewrite Htr. cbn [trace]. rewrite <- !app_assoc. reflexivity. }
    right. exists 0%nat, msg, n, tr0.
    unfold sent_to, observed, closes, frames_of in *. cbn [flat_map app].
    rewrite !flat_map_app, Hfr1, Hsent1, Hsent2, Hobs1, Hobs2, count_occ_app, Hcl1, Hcl2.
    cbn [app take concat lookup]. rewrite app_nil_r.
    repeat split; assumption.
Qed.

End Consumer.

Section Stream.

Variable read : reader.
Variable e : env.

Hypothesis read_shaped : forall s s' out out',
  read s out = (true, out', s') ->
  frame_shaped out' /\ (length (rx s') < length (rx s))%nat.

Hypothesis read_takes : forall s s' out out',
  read s out = (true, out', s') -> rx s = out' ++ rx s'.

(** The buffers handed to the broadcast loop are consecutive stretches
    of the producer stream, from its first byte on, and the consumers
    are offered these buffers and no other. *)
Lemma relay_loop_stream (fuel : nat) :
  forall (k : nat) (st : relay),
  (length (rx (src st)) < fuel)%nat ->
  exists st' new rest,
    relay_loop read e fuel k st = Some st' /\
    trace st' = trace st ++ new /\
    rx (src st) = concat (frames_of new) ++ rest /\
    Forall (fun m => In m (frames_of new)) (offered new).
Proof.
  induction fuel as [|fuel IH]; intros k st Hfuel; [lia|].
  simpl. destruct (running e k); cbn [negb].
  2:{ eexists. exists [], (rx (src st)). split; [reflexivity|]. simpl.
      rewrite app_nil_r. repeat split. constructor. }
  destruct (read (src st) (msg_buf st)) as [[ok msg] s] eqn:Hread.
  destruct ok; cbn [negb].
  2:{ eexists. exists [], (rx (src st)). split; [reflexivity|]. simpl.
      rewrite app_nil_r. repeat split. constructor. }
  destruct (read_shaped _ _ _ _ Hread) as [_ Hless].
  pose proof (read_takes _ _ _ _ Hread) as Htake.
  rewrite broadcast_is_pass.
  destruct (pass_log (send e) msg (churn e k (sinks st)) (trace st ++ [EvFrame msg]))
    as (new1 & Htr1 & _ & Hoff1 & _ & _ & _).
  destruct (pass_no_frames (send e) msg (churn e k (sinks st))
              (trace st ++ [EvFrame msg])) as (new1' & Htr1' & Hfr1).
  destruct (pass (send e) msg (churn e k (sinks st)) (trace st ++ [EvFrame msg]))
    as [reg' tr'].
  cbn [snd] in Htr1, Htr1'. subst tr'.
  apply app_inv_head in Htr1'. subst new1'.
  destruct (IH (S k) (Relay s true msg reg' ((trace st ++ [EvFrame msg]) ++ new1)))
    as (st' & new2 & rest & Hloop & Htr & Hrx & Hoff2); [simpl; lia|].
  cbn [src] in Hrx.
  exists st', (EvFrame msg :: new1 ++ new2), rest.
  split; [exact Hloop|]. split.
  { rewrite Htr. cbn [trace]. rewrite <- !app_assoc. reflexivity. }
  assert (Hfr : frames_of (EvFrame msg :: new1 ++ new2) = msg :: frames_of new2).
  { unfold frames_of in *. cbn [flat_map app].
    rewrite flat_map_app, Hfr1. reflexivity. }
  rewrite Hfr. split.
  - cbn [concat]. rewrite Htake, Hrx, <- app_assoc. reflexivity.
  - unfold offered in *. cbn [flat_map app]. rewrite flat_map_app.
    apply Forall_app. split.
    + eapply Forall_impl; [exact Hoff1|]. intros m <-. left. reflexivity.
    + eapply Forall_impl; [exact Hoff2|]. intros m Hm. right. exact Hm.
Qed.

End Stream.

(** Frames that the reader keeps are read one after the other, each in
    its own pass, while the flag is set; what follows them on the
    stream is read after them. *)
Lemma relay_loop_kept_prefix (mismatch : list byte -> Z -> bool) (e : env)
    (fs : list (list byte)) (rest : list byte) :
  Forall (kept_frame mismatch) fs ->
  forall (fuel k : nat) (log : list Z) (out : list byte) (reg : list Z)
         (tr : list event),
  (forall i, (i < length fs)%nat -> running e (k + i) = true) ->
  (length (concat fs ++ rest) < fuel)%nat ->
  exists st' new more,
    relay_loop (read_stage2 mismatch) e fuel k
      (Relay (Sock (concat fs ++ rest) log) true out reg tr) = Some st' /\
    trace st' = tr ++ new /\ frames_of new = fs ++ more.
Proof.
  intro Hfs. induction Hfs as [|f fs' Hf _ IH];
    intros fuel k log out reg tr Hrun Hfuel.
  - destruct (relay_loop_returns (read_stage2 mismatch) e
                (read_stage2_shaped mismatch) fuel k
                (Relay (Sock (concat [] ++ rest) log) true out reg tr))
      as (st' & new & Hloop & _ & Htr & _); [exact Hfuel|].
    exists st', new, (frames_of new). repeat split; assumption.
  - destruct fuel as [|fuel]; [lia|].
    cbn [concat] in *. rewrite <- app_assoc in *.
    destruct (read_stage2_kept mismatch f (concat fs' ++ rest) out log Hf)
      as [H8 [log' Hread]].
    cbn [relay_loop].
    assert (Hk : running e k = true).
    { rewrite <- (Nat.add_0_r k). apply Hrun. simpl. lia. }
    rewrite Hk. cbn [negb src msg_buf sinks trace].
    rewrite Hread. cbn [negb].
    rewrite broadcast_is_pass.
    destruct (pass_no_frames (send e) f (churn e k reg) (tr ++ [EvFrame f]))
      as (new1 & Htr1 & Hfr1).
    destruct (pass (send e) f (churn e k reg) (tr ++ [EvFrame f])) as [reg' tr'].
    cbn [snd] in Htr1. subst tr'. cbv beta iota.
    destruct (IH fuel (S k) log' f reg' ((tr ++ [EvFrame f]) ++ new1))
      as (st' & new2 & more & Hloop & Htr & Hfr2).
    { intros i Hi. replace (S k + i)%nat with (k + S i)%nat by lia.
      apply Hrun. simpl. lia. }
    { rewrite length_app in Hfuel. lia. }
    exists st', (EvFrame f :: new1 ++ new2), more.
    split; [exact Hloop|]. split.
    + rewrite Htr, <- !app_assoc. reflexivity.
    + unfold frames_of in *. cbn [flat_map].
      rewrite flat_map_app, Hfr1, Hfr2. reflexivity.
Qed.

(** C8 (amended). One broadcast pass at a time under the registry lock,
    with the other consumers connecting and disconnecting in between.
    The producer stream starts with the frames [fs] (F1, F2, F3, ...),
    each of which read_ctmp validates, and the flag is set while they
    are read.  Then the relay hands exactly these frames, in this
    order and once each, to the broadcast loop, before any later frame
    [more] of the stream.  A consumer [d] that is registered (once)
    before the first frame and whose registry entry the other
    consumers leave alone gets one of two things.  If its writes all
    transfer the complete frame it is written each frame once, in
    order, and observes exactly their bytes back to back, nothing in
    between and nothing twice, and stays registered; this is so
    whenever every write to [d] is complete.  Otherwise it observes
    the frames before its first short write, then the bytes that write
    transferred, and nothing more: it is closed and removed. *)
Theorem frames_delivered_in_order (e : env) (d : Z) (fs : list (list byte))
    (rest : list byte) (log : list Z) (reg : list Z) (tr : list event) :
  Forall (kept_frame MainCpp.checksum_mismatch) fs ->
  (forall k, (k < length fs)%nat -> running e k = true) ->
  (forall k r, count_occ Z.eq_dec (churn e k r) d = count_occ Z.eq_dec r d) ->
  count_occ Z.eq_dec reg d = 1%nat ->
  exists st' new more,
    run_relay MainCpp.read_ctmp e (Sock (concat fs ++ rest) log) reg tr = Some st' /\
    trace st' = tr ++ new /\
    frames_of new = fs ++ more /\
    (delivered_all d (fs ++ more) new (sinks st') \/
     cut_short (send e) d (fs ++ more) new (sinks st')) /\
    ((forall tr0 msg, send e tr0 d msg = Z.of_nat (length msg)) ->
     sent_to d new = fs ++ more /\
     observed d new = concat fs ++ concat more).
Proof.
  intros Hfs Hrun Hchurn Hreg. unfold run_relay, start.
  rewrite read_ctmp_shape.
  destruct (relay_loop_kept_prefix MainCpp.checksum_mismatch e fs rest Hfs
              (S (length (concat fs ++ rest))) 0 log [] reg tr)
    as (st' & new & more & Hloop & Htr & Hfr); [exact Hrun | simpl; lia |].
  destruct (relay_loop_delivery e d (read_stage2 MainCpp.checksum_mismatch)
              (read_stage2_shaped MainCpp.checksum_mismatch) Hchurn
              (S (length (concat fs ++ rest))) 0
              (Relay (Sock (concat fs ++ rest) log) true [] reg tr))
    as (st2 & new2 & Hloop2 & Htr2 & Hcase); [simpl; lia | exact Hreg |].
  cbn [rx] in Hloop. rewrite Hloop in Hloop2. injection Hloop2 as <-.
  cbn [trace] in Htr2. rewrite Htr in Htr2. apply app_inv_head in Htr2. subst new2.
  rewrite Hfr in Hcase.
  exists st', new, more.
  split; [exact Hloop|]. split; [exact Htr|]. split; [exact Hfr|].
  split; [exact Hcase|].
  intro Hsend.
  destruct Hcase as [(Hs & Ho & _) | (j & f & n & tr0 & _ & Hn & Hne & _)].
  - split; [exact Hs|]. rewrite Ho, concat_app. reflexivity.
  - rewrite Hsend in Hn. contradiction.
Qed.

Lemma frames_delivered_in_order_witness :
  let F1 := [xcc; x00; x00; x01; x00; x00; x00; x00] ++ [x41] in
  let F2 := [xcc; x40; x00; x05; x43; x1b; x00; x00] ++
            [x48; x65; x6c; x6c; x6f] in
  let F3 := [xcc; x00; x00; x01; x00; x00; x00; x00] ++ [x43] in
  exists st' new more,
    run_relay MainCpp.read_ctmp busy (Sock (concat [F1; F2; F3] ++ [xcc]) [])
      [5; 6] [] = Some st' /\
    trace st' = [] ++ new /\
    frames_of new = [F1; F2; F3] ++ more /\
    (delivered_all 5 ([F1; F2; F3] ++ more) new (sinks st') \/
     cut_short (send busy) 5 ([F1; F2; F3] ++ more) new (sinks st')) /\
    ((forall tr0 msg, send busy tr0 5 msg = Z.of_nat (length msg)) ->
     sent_to 5 new = [F1; F2; F3] ++ more /\
     observed 5 new = concat [F1; F2; F3] ++ concat more).
Proof.
  apply (frames_delivered_in_order busy 5
           [[xcc; x00; x00; x01; x00; x00; x00; x00] ++ [x41];
            [xcc; x40; x00; x05; x43; x1b; x00; x00] ++
            [x48; x65; x6c; x6c; x6f];
            [xcc; x00; x00; x01; x00; x00; x00; x00] ++ [x43]]
           [xcc] [] [5; 6] []).
  - constructor; [|constructor; [|constructor; [|constructor]]].
    + exists x00, x00, x01, x00, x00, [x41].
      split; [reflexivity|]. split; [reflexivity|]. left. reflexivity.
    + exists x40, x00, x05, x43, x1b, [x48; x65; x6c; x6c; x6f].
      split; [reflexivity|]. split; [reflexivity|]. right.
      vm_compute. reflexivity.
    + exists x00, x00, x01, x00, x00, [x43].
      split; [reflexivity|]. split; [reflexivity|]. left. reflexivity.
  - intros k _. reflexivity.
  - intros k r. destruct k as [|[|[|k]]]; simpl churn.
    + reflexivity.
    + unfold register. rewrite count_occ_app. simpl. lia.
    + rewrite count_occ_unregister. reflexivity.
    + reflexivity.
  - vm_compute. reflexivity.
Defined.

(** ** What reaches the consumers *)

(** C10. Every buffer the relay loop of main.cpp hands to the broadcast
    loop, and so every buffer offered to a consumer, is a structurally
    valid frame: its size is 8 plus the length its bytes 2-3 declare,
    its first byte is 0xCC, its bytes 6-7 are zero.  None is a
    partially read buffer: laid end to end in the order handed over,
    the buffers are the producer stream from its first byte up to
    where the relay stopped, so each one holds, whole, the header and
    the body that arrived for it.  The consumers are offered these
    buffers and no other.  The loop returns (with the producer closed)
    on every stream. *)
Theorem relayed_buffers_are_frames (e : env) (s : socket) (reg : list Z)
    (tr : list event) :
  exists st' new rest,
    run_relay MainCpp.read_ctmp e s reg tr = Some st' /\
    src_open st' = false /\
    trace st' = tr ++ new /\
    Forall (fun ev => Forall frame_shaped (event_data ev)) new /\
    rx s = concat (frames_of new) ++ rest /\
    Forall (fun m => In m (frames_of new)) (offered new).
Proof.
  unfold run_relay.
  destruct (relay_loop_returns MainCpp.read_ctmp e
              (fun s0 s1 out out' H =>
                 read_stage2_shaped MainCpp.checksum_mismatch s0 s1 out out' H)
              (S (length (rx s))) 0 (start s reg tr))
    as (st' & new & Hloop & Hclosed & Htr & Hnew); [simpl; lia|].
  destruct (relay_loop_stream MainCpp.read_ctmp e
              (fun s0 s1 out out' H =>
                 read_stage2_shaped MainCpp.checksum_mismatch s0 s1 out out' H)
              (fun s0 s1 out out' H =>
                 read_stage2_takes MainCpp.checksum_mismatch s0 s1 out out' H)
              (S (length (rx s))) 0 (start s reg tr))
    as (st2 & new2 & rest & Hloop2 & Htr2 & Hrx & Hoff); [simpl; lia|].
  rewrite Hloop in Hloop2. injection Hloop2 as <-.
  rewrite Htr in Htr2. apply app_inv_head in Htr2. subst new2.
  exists st', new, rest. repeat split; assumption.
Qed.

(** ** The consumer threads *)

Lemma poll_stops (again : nat -> bool) (fuel : nat) :
  forall k n,
  (k <= n < k + fuel)%nat -> again n = false ->
  (forall j, (k <= j < n)%nat -> again j = true) ->
  poll again fuel k = Some n.
Proof.
  induction fuel as [|fuel IH]; intros k n Hn Hstop Hgo; [lia|].
  simpl. destruct (Nat.eq_dec k n) as [->|Hne].
  - rewrite Hstop. reflexivity.
  - rewrite (Hgo k) by lia. apply IH; [lia | exact Hstop |].
    intros j Hj. apply Hgo. lia.
Qed.

Lemma poll_goes_on (again : nat -> bool) (fuel : nat) :
  forall k, (forall j, (k <= j)%nat -> again j = true) ->
  poll again fuel k = None.
Proof.
  induction fuel as [|fuel IH]; intros k Hgo; [reflexivity|].
  simpl. rewrite (Hgo k) by lia. apply IH. intros j Hj. apply Hgo. lia.
Qed.

Lemma unregister_absent (d : Z) (reg : list Z) :
  count_occ Z.eq_dec reg d = 0%nat -> unregister d reg = reg.
Proof.
  unfold unregister. induction reg as [|x rest IH]; intro H; [reflexivity|].
  simpl in *. destruct (Z.eq_dec x d) as [->|Hx]; [discriminate H|].
  destruct (Z.eqb_spec x d) as [He|_]; [contradiction|].
  simpl. rewrite IH by exact H. reflexivity.
Qed.

Lemma unregister_register (d : Z) (reg : list Z) :
  unregister d (register d reg) = unregister d reg.
Proof.
  unfold unregister, register. rewrite List.filter_app. simpl.
  rewrite Z.eqb_refl. simpl. apply app_nil_r.
Qed.

(** sink_loop of main.cpp sleeps until the first poll at which the flag
    is down or the peek returns 0, and returns then: no entry of its
    descriptor is left in the registry, the entries of every other
    descriptor are as the other threads left them, and when nobody
    else touched the registry and the descriptor was not listed
    before, the registry is what it was before the consumer came. *)
Theorem sink_loop_lifetime (e : dest_env) (fuel n : nat) (fd : Z) (reg : list Z) :
  (n < fuel)%nat ->
  alive e n = false \/ peek e n = 0 ->
  (forall j, (j < n)%nat -> alive e j = true /\ peek e j <> 0) ->
  exists reg',
    MainCpp.sink_loop e fuel fd reg = Some (reg', n) /\
    count_occ Z.eq_dec reg' fd = 0%nat /\
    (forall x, x <> fd ->
       count_occ Z.eq_dec reg' x =
       count_occ Z.eq_dec (meanwhile e (register fd reg)) x) /\
    (meanwhile e (register fd reg) = register fd reg ->
     count_occ Z.eq_dec reg fd = 0%nat -> reg' = reg).
Proof.
  intros Hn Hstop Hgo.
  exists (unregister fd (meanwhile e (register fd reg))).
  unfold MainCpp.sink_loop, dest_thread.
  rewrite (poll_stops _ fuel 0 n).
  - split; [reflexivity|]. split; [|split].
    + rewrite count_occ_unregister, Z.eqb_refl. reflexivity.
    + intros x Hx. rewrite count_occ_unregister.
      destruct (Z.eqb_spec x fd) as [He|_]; [contradiction | reflexivity].
    + intros Hsame Habsent.
      rewrite Hsame, unregister_register. apply unregister_absent, Habsent.
  - lia.
  - destruct Hstop as [Ha|Hp].
    + rewrite Ha. reflexivity.
    + rewrite Hp. simpl. apply andb_false_r.
  - intros j Hj. destruct (Hgo j ltac:(lia)) as [Ha Hp].
    rewrite Ha. apply Z.eqb_neq in Hp. rewrite Hp. reflexivity.
Qed.

Lemma sink_loop_lifetime_witness :
  let e := DestEnv (fun k => if (k <? 3)%nat then -1 else 0)
                   (fun _ => true) (fun reg => reg) in
  exists reg',
    MainCpp.sink_loop e 10 7 [5; 6] = Some (reg', 3%nat) /\
    count_occ Z.eq_dec reg' 7 = 0%nat /\
    (forall x, x <> 7 ->
       count_occ Z.eq_dec reg' x =
       count_occ Z.eq_dec (meanwhile e (register 7 [5; 6])) x) /\
    (meanwhile e (register 7 [5; 6]) = register 7 [5; 6] ->
     count_occ Z.eq_dec [5; 6] 7 = 0%nat -> reg' = [5; 6]).
Proof.
  apply (sink_loop_lifetime
           (DestEnv (fun k => if (k <? 3)%nat then -1 else 0)
                    (fun _ => true) (fun reg => reg)) 10 3 7 [5; 6]).
  - lia.
  - right. reflexivity.
  - intros j Hj. split; [reflexivity|].
    simpl. destruct (Nat.ltb_spec j 3); [discriminate | lia].
Defined.

(** A consumer that stays connected and never sends anything (every
    peek returns -1) while the flag stays set: sink_loop, the first
    listing's destHandler and handle_dest never return, but the
    destHandler that tests [recv(...) > 0] returns at its first poll,
    before any sleep, with the consumer closed and unregistered. *)
Theorem silent_consumer (e : dest_env) (fuel : nat) (fd : Z) (reg : list Z) :
  (forall k, peek e k < 0) -> (forall k, alive e k = true) ->
  MainCpp.sink_loop e fuel fd reg = None /\
  Early.destHandler e fuel fd reg = None /\
  Stage1.handle_dest e fuel fd reg = None /\
  SumCheck.destHandler e (S fuel) fd reg =
    Some (unregister fd (meanwhile e (register fd reg)), 0%nat).
Proof.
  intros Hpeek Halive.
  assert (Hne : forall k, (peek e k =? 0) = false).
  { intro k. apply Z.eqb_neq. specialize (Hpeek k). lia. }
  unfold MainCpp.sink_loop, Early.destHandler, Stage1.handle_dest,
    SumCheck.destHandler, dest_thread.
  rewrite !poll_goes_on
    by (intros j _; rewrite Halive, Hne; reflexivity).
  repeat split.
  simpl. rewrite Halive.
  destruct (Z.ltb_spec 0 (peek e 0)) as [Hpos|_];
    [specialize (Hpeek 0%nat); lia | reflexivity].
Qed.

Lemma silent_consumer_witness :
  let e := DestEnv (fun _ => -1) (fun _ => true) (fun reg => reg) in
  MainCpp.sink_loop e 4 7 [5] = None /\
  Early.destHandler e 4 7 [5] = None /\
  Stage1.handle_dest e 4 7 [5] = None /\
  SumCheck.destHandler e 5 7 [5] =
    Some (unregister 7 (meanwhile e (register 7 [5])), 0%nat).
Proof.
  apply (silent_consumer
           (DestEnv (fun _ => -1) (fun _ => true) (fun reg => reg)) 4 7 [5]).
  - intro k. reflexivity.
  - intro k. reflexivity.
Defined.

(** ** Shutdown *)

(** handle_signal clears the flag and closes each listener that is
    open, once: a second signal closes nothing and changes nothing,
    and after a signal the cleanup at the end of main closes nothing
    either. *)
Theorem handle_signal_closes_once (p : process) :
  flag (MainCpp.handle_signal p) = false /\
  closed (MainCpp.handle_signal p) =
    closed p ++ List.filter (fun fd => 0 <=? fd) [src_listener p; dst_listener p] /\
  MainCpp.handle_signal (MainCpp.handle_signal p) = MainCpp.handle_signal p /\
  MainCpp.main_cleanup (MainCpp.handle_signal p) = MainCpp.handle_signal p.
Proof.
  destruct p as [f s d c].
  unfold MainCpp.handle_signal, MainCpp.main_cleanup. cbn [flag src_listener dst_listener closed].
  destruct (0 <=? s) eqn:Es; destruct (0 <=? d) eqn:Ed;
    repeat (progress (rewrite ?Es, ?Ed;
                      cbn [flag src_listener dst_listener closed List.filter];
                      change (0 <=? -1) with false; cbv iota));
    rewrite <- ?app_assoc, ?app_nil_r; repeat split.
Qed.

(** ** The checksum value 0xFFFF *)

Lemma word_total_zero_iff (b : list byte) :
  word_total b = 0 <-> Forall (fun x => x = x00) b.
Proof.
  induction b as [|hi|hi lo rest IH] using pair_ind.
  - simpl. split; [constructor | reflexivity].
  - simpl. rewrite be_tail_value. pose proof (u8_range hi). split.
    + intro H0. constructor; [|constructor].
      apply u8_inj. change (u8 x00) with 0. lia.
    + intro HF. inversion HF as [|? ? Hx _]; subst. change (u8 x00) with 0. lia.
  - simpl. pose proof (be_word_range hi lo).
    pose proof (word_total_bound rest) as [Hr _]. split.
    + intro H0. assert (Hw : be_word hi lo = 0) by lia.
      apply be_word_zero in Hw as [Hh Hl].
      constructor; [apply u8_inj; exact Hh|].
      constructor; [apply u8_inj; exact Hl|].
      apply IH. lia.
    + intro HF. inversion HF as [|? ? Hh HF1]; subst.
      inversion HF1 as [|? ? Hl HF2]; subst.
      apply IH in HF2. rewrite HF2. reflexivity.
Qed.

(** compute_checksum returns 0xFFFF for buffers of zero bytes only (the
    empty one among them); every other buffer gets a value of at most
    0xFFFE. *)
Theorem checksum_ffff_only_for_zeros (b : list byte) :
  (MainCpp.compute_checksum b = 0xFFFF <-> Forall (fun x => x = x00) b) /\
  0 <= MainCpp.compute_checksum b <= 0xFFFF.
Proof.
  split; [|apply compute_checksum_range].
  rewrite <- word_total_zero_iff.
  unfold MainCpp.compute_checksum.
  rewrite complement16_value by (apply sum_loop_range; lia).
  pose proof (sum_loop_zero b 0 ltac:(lia)) as Hz.
  pose proof (sum_loop_range b 0 ltac:(lia)) as Hr.
  split; intro H.
  - apply Hz. lia.
  - assert (sum_loop 0 b = 0) by (apply Hz; split; [reflexivity | exact H]). lia.
Qed.

(** So a packet whose checksum field is FF FF never passes the
    sentinel test of main.cpp, whatever the rest of it is: the buffer
    the test sums holds the two 0xCC bytes. *)
Theorem checksum_field_ffff_rejected (buf : list byte) :
  (6 <= length buf)%nat ->
  ntohs_at buf 4 = 0xFFFF ->
  MainCpp.checksum_mismatch buf (ntohs_at buf 4) = true.
Proof.
  intros Hlen Hfield.
  destruct buf as [|a0 [|a1 [|a2 [|a3 [|a4 [|a5 rest]]]]]]; simpl in Hlen; try lia.
  unfold MainCpp.checksum_mismatch, MainCpp.compute_checksum.
  rewrite Hfield.
  change (<[5%nat:=xcc]> (<[4%nat:=xcc]> (a0 :: a1 :: a2 :: a3 :: a4 :: a5 :: rest)))
    with (a0 :: a1 :: a2 :: a3 :: xcc :: xcc :: rest).
  set (forced := a0 :: a1 :: a2 :: a3 :: xcc :: xcc :: rest).
  rewrite complement16_value by (apply sum_loop_range; lia).
  apply negb_true_iff, Z.eqb_neq. intro Heq.
  assert (H0 : sum_loop 0 forced = 0) by lia.
  apply (sum_loop_zero forced 0 ltac:(lia)) in H0 as [_ Ht].
  unfold forced in Ht. simpl word_total in Ht.
  change (be_word xcc xcc) with 0xCCCC in Ht.
  pose proof (be_word_range a0 a1). pose proof (be_word_range a2 a3).
  pose proof (word_total_bound rest) as [Hr _]. lia.
Qed.

Lemma checksum_field_ffff_rejected_witness :
  MainCpp.checksum_mismatch [x00; x00; x00; x00; xff; xff; x00; x00]
    (ntohs_at [x00; x00; x00; x00; xff; xff; x00; x00] 4) = true.
Proof.
  apply (checksum_field_ffff_rejected [x00; x00; x00; x00; xff; xff; x00; x00]).
  - simpl. lia.
  - vm_compute. reflexivity.
Defined.
